(** * The svelte inspector plugin for Vite (neovim variant)

    A shallow embedding of [svelteInspector] (the plugin factory of the
    repository) and of the JavaScript built-ins its hooks call, followed by the
    properties of the hooks.

    Strings are [string]s of 8-bit characters, read as the UTF-8 bytes of a
    well-formed JavaScript string.  Every character the plugin searches for or
    inserts is ASCII, so searching, slicing at the positions found and
    concatenation give the same text on bytes as on UTF-16 code units. *)

From Stdlib Require Import String Ascii List ZArith Bool Lia.
Import ListNotations.
Local Open Scope string_scope.
Local Open Scope Z_scope.

(* ================================================================= *)
(** ** String built-ins *)

Module JsString.

(** [s.startsWith(p)] *)
Definition startsWith (p s : string) : bool := String.prefix p s.

(** The text left of the last [n] characters, and those last characters. *)
Definition drop_last (n : nat) (s : string) : string :=
  String.substring 0 (String.length s - n) s.

Definition last_chars (n : nat) (s : string) : string :=
  String.substring (String.length s - n) n s.

(** [s.endsWith(p)] *)
Definition endsWith (p s : string) : bool :=
  (String.length p <=? String.length s)%nat
  && String.eqb (last_chars (String.length p) s) p.

(** [s.indexOf(p)], the search starting at position [i] of the whole
    string: the first position where [p] occurs, [-1] when there is none. *)
Fixpoint indexOf_from (p s : string) (i : Z) : Z :=
  if String.prefix p s then i
  else match s with
       | EmptyString => -1
       | String _ s' => indexOf_from p s' (i + 1)
       end.

Definition indexOf (p s : string) : Z := indexOf_from p s 0.

(** [s.lastIndexOf(p)]: the last position where [p] occurs, [-1] when there
    is none. *)
Fixpoint lastIndexOf_from (p s : string) (i : Z) : Z :=
  let later := match s with
               | EmptyString => -1
               | String _ s' => lastIndexOf_from p s' (i + 1)
               end in
  if 0 <=? later then later
  else if String.prefix p s then i else -1.

Definition lastIndexOf (p s : string) : Z := lastIndexOf_from p s 0.

(** [s.substring(a, b)]: both bounds are clamped to [0 .. length], and
    swapped when the first is the larger. *)
Definition clamp (len x : Z) : Z := Z.min (Z.max x 0) len.

Definition substring (s : string) (a b : Z) : string :=
  let len := Z.of_nat (String.length s) in
  let a' := clamp len a in
  let b' := clamp len b in
  let from := Z.min a' b' in
  let to := Z.max a' b' in
  String.substring (Z.to_nat from) (Z.to_nat (to - from)) s.

(** The replacement text of [String.prototype.replace] (GetSubstitution)
    when the pattern is a string, so that there is no capture group:
    [$$] stands for a dollar sign, [$&] for the matched text, [$`] for the
    text before the match and [$'] for the text after it; any other [$] is
    kept as it is. *)
Fixpoint getSubstitution (matched before after template : string) : string :=
  match template with
  | EmptyString => EmptyString
  | String "$" (String "$" t) =>
      String "$" (getSubstitution matched before after t)
  | String "$" (String "&" t) =>
      matched ++ getSubstitution matched before after t
  | String "$" (String "`" t) =>
      before ++ getSubstitution matched before after t
  | String "$" (String "'" t) =>
      after ++ getSubstitution matched before after t
  | String c t => String c (getSubstitution matched before after t)
  end.

(** [s.replace(p, r)] for a string pattern [p]: the first occurrence of [p]
    is replaced by the expansion of [r]; [s] is returned when [p] does not
    occur. *)
Definition replace (p r s : string) : string :=
  let i := indexOf p s in
  if i <? 0 then s
  else
    let before := String.substring 0 (Z.to_nat i) s in
    let after :=
      String.substring (Z.to_nat i + String.length p)
        (String.length s - (Z.to_nat i + String.length p)) s in
    before ++ getSubstitution p before after r ++ after.

(** Whether the character [c] occurs in [s]. *)
Fixpoint has_char (c : ascii) (s : string) : bool :=
  match s with
  | EmptyString => false
  | String c' s' => Ascii.eqb c' c || has_char c s'
  end.

(** [a || b] on strings: the empty string is falsy. *)
Definition or_else (a b : string) : string :=
  if String.eqb a "" then b else a.

End JsString.

(* ================================================================= *)
(** ** Values and objects *)

#[local] Set Warnings "-register-all".

(** The values an [InspectorOptions] record is made of: strings, booleans,
    nested records, and [undefined] for an optional field that is not set. *)
Inductive value : Type :=
| VUndefined
| VBool (b : bool)
| VString (s : string)
| VObject (props : list (string * value)).

(** An object is the list of its own properties in enumeration order. *)
Definition object : Type := list (string * value).

Module JsObject.

Definition is_digit (c : ascii) : bool :=
  ((48 <=? N_of_ascii c) && (N_of_ascii c <=? 57))%N.

Fixpoint digits_value (s : string) (acc : N) : option N :=
  match s with
  | EmptyString => Some acc
  | String c s' =>
      if is_digit c
      then digits_value s' (10 * acc + (N_of_ascii c - 48))%N
      else None
  end.

(** A property key is an array index when it is the canonical decimal
    writing of an integer below [2^32 - 1]; an object enumerates such keys
    first, in ascending order, and the other keys after them in the order
    of their creation. *)
Definition array_index (k : string) : option N :=
  match k with
  | EmptyString => None
  | String "0" EmptyString => Some 0%N
  | String "0" _ => None
  | _ => match digits_value k 0 with
         | Some n => if (n <? 4294967295)%N then Some n else None
         | None => None
         end
  end.

(** [o[k]], [undefined] when [o] has no property [k]. *)
Fixpoint get (k : string) (o : object) : value :=
  match o with
  | [] => VUndefined
  | (k', v) :: o' => if String.eqb k' k then v else get k o'
  end.

Fixpoint has (k : string) (o : object) : bool :=
  match o with
  | [] => false
  | (k', _) :: o' => String.eqb k' k || has k o'
  end.

Fixpoint overwrite (k : string) (v : value) (o : object) : object :=
  match o with
  | [] => []
  | (k', v') :: o' =>
      if String.eqb k' k then (k', v) :: o'
      else (k', v') :: overwrite k v o'
  end.

Fixpoint insert_index (n : N) (k : string) (v : value) (o : object) : object :=
  match o with
  | [] => [(k, v)]
  | (k', v') :: o' =>
      match array_index k' with
      | Some m =>
          if (m <=? n)%N then (k', v') :: insert_index n k v o'
          else (k, v) :: (k', v') :: o'
      | None => (k, v) :: (k', v') :: o'
      end
  end.

(** [o[k] = v]: an existing property keeps its place; a new one takes the
    place its key has in the enumeration order.  ([insert_index] meets no
    index equal to the new one: that is the same key, and the property
    exists.) *)
Definition set (k : string) (v : value) (o : object) : object :=
  if has k o then overwrite k v o
  else match array_index k with
       | Some n => insert_index n k v o
       | None => (o ++ [(k, v)])%list
       end.

(** Copying the own properties of [source] into [target], as one spread
    element of an object literal does. *)
Definition assign (target source : object) : object :=
  fold_left (fun acc kv => set (fst kv) (snd kv) acc) source target.

Definition keys (o : object) : list string := map fst o.

(** The shape every object has: no key twice, array indices first and
    ascending. *)
Fixpoint ordered_from (lo : option N) (ks : list string) : bool :=
  match ks with
  | [] => true
  | k :: ks' =>
      match array_index k, lo with
      | Some n, Some m => (m <=? n)%N && ordered_from (Some n) ks'
      | Some _, None => false
      | None, _ => ordered_from None ks'
      end
  end.

(** A bound [lo] is below [lo'] when every list that is ordered from [lo']
    is ordered from [lo]. *)
Definition bound_le (lo lo' : option N) : Prop :=
  match lo, lo' with
  | Some m, Some n => (m <= n)%N
  | _, None => True
  | None, Some _ => False
  end.

Fixpoint nodup_keys (ks : list string) : bool :=
  match ks with
  | [] => true
  | k :: ks' => negb (existsb (String.eqb k) ks') && nodup_keys ks'
  end.

Definition well_formed_keys (ks : list string) : bool :=
  nodup_keys ks && ordered_from (Some 0%N) ks.

End JsObject.

(** Truthiness, as [if (v)], [!v] and [v || w] test it. *)
Definition truthy (v : value) : bool :=
  match v with
  | VUndefined => false
  | VBool b => b
  | VString s => negb (String.eqb s "")
  | VObject _ => true
  end.

(** The string a value becomes where a built-in expects a string. *)
Definition to_js_string (v : value) : string :=
  match v with
  | VUndefined => "undefined"
  | VBool true => "true"
  | VBool false => "false"
  | VString s => s
  | VObject _ => "[object Object]"
  end.

(** Objects well formed at every depth. *)
Fixpoint well_formed (v : value) : bool :=
  match v with
  | VObject props =>
      JsObject.well_formed_keys (map fst props)
      && forallb (fun kv => well_formed (snd kv)) props
  | _ => true
  end.

(* ================================================================= *)
(** ** JSON text *)

Module Json.

Definition dquote : ascii := ascii_of_N 34.
Definition backslash : ascii := ascii_of_N 92.

Definition hex_digit (n : N) : ascii :=
  ascii_of_N (if (n <? 10)%N then 48 + n else 87 + n)%N.

(** [\u00XX], for a character below [0x20] that has no short escape. *)
Definition unicode_escape (c : ascii) : string :=
  "\u00" ++ String (hex_digit (N_of_ascii c / 16))
              (String (hex_digit (N_of_ascii c mod 16)) "").

Definition quote_char (c : ascii) : string :=
  let n := N_of_ascii c in
  if (n =? 8)%N then "\b"
  else if (n =? 9)%N then "\t"
  else if (n =? 10)%N then "\n"
  else if (n =? 12)%N then "\f"
  else if (n =? 13)%N then "\r"
  else if (n =? 34)%N then String backslash (String dquote "")
  else if (n =? 92)%N then "\\"
  else if (n <? 32)%N then unicode_escape c
  else String c "".

Fixpoint quote_body (s : string) : string :=
  match s with
  | EmptyString => ""
  | String c s' => quote_char c ++ quote_body s'
  end.

(** QuoteJSONString *)
Definition quoteJSONString (s : string) : string :=
  String dquote (quote_body s ++ String dquote "").

(** SerializeJSONProperty without replacer or indentation: [None] is the
    [undefined] that makes an object leave the property out. *)
Fixpoint serializeJSONProperty (v : value) : option string :=
  match v with
  | VUndefined => None
  | VBool true => Some "true"
  | VBool false => Some "false"
  | VString s => Some (quoteJSONString s)
  | VObject props =>
      Some ("{" ++ String.concat ","
              (flat_map
                 (fun kv =>
                    match serializeJSONProperty (snd kv) with
                    | Some t => [quoteJSONString (fst kv) ++ ":" ++ t]
                    | None => []
                    end) props) ++ "}")
  end.

(** [JSON.stringify(v)] *)
Definition stringify (v : value) : option string := serializeJSONProperty v.

(** *** Reading JSON text

    The reader covers the JSON the values above are written in: objects,
    strings, [true] and [false], with white space between tokens.  It has
    no result ([None]) on text that is not JSON, and on numbers, [null],
    arrays and [\u] escapes above [0x7f], which no such value is written
    with. *)

Definition is_ws (c : ascii) : bool :=
  let n := N_of_ascii c in
  ((n =? 9) || (n =? 10) || (n =? 13) || (n =? 32))%N.

Fixpoint skip_ws (s : string) : string :=
  match s with
  | EmptyString => ""
  | String c s' => if is_ws c then skip_ws s' else s
  end.

Definition hex_value (c : ascii) : option N :=
  let n := N_of_ascii c in
  if ((48 <=? n) && (n <=? 57))%N then Some (n - 48)%N
  else if ((97 <=? n) && (n <=? 102))%N then Some (n - 87)%N
  else if ((65 <=? n) && (n <=? 70))%N then Some (n - 55)%N
  else None.

Definition hex4 (a b c d : ascii) : option N :=
  match hex_value a, hex_value b, hex_value c, hex_value d with
  | Some x, Some y, Some z, Some w =>
      Some (((x * 16 + y) * 16 + z) * 16 + w)%N
  | _, _, _, _ => None
  end.

Definition unescape (e : ascii) : option ascii :=
  let n := N_of_ascii e in
  if (n =? 34)%N then Some dquote
  else if (n =? 92)%N then Some backslash
  else if (n =? 47)%N then Some "/"%char
  else if (n =? 98)%N then Some (ascii_of_N 8)
  else if (n =? 102)%N then Some (ascii_of_N 12)
  else if (n =? 110)%N then Some (ascii_of_N 10)
  else if (n =? 114)%N then Some (ascii_of_N 13)
  else if (n =? 116)%N then Some (ascii_of_N 9)
  else None.

(** The characters of a string literal after its opening quote: the text
    read, and what follows the closing quote. *)
Fixpoint parse_chars (s : string) : option (string * string) :=
  match s with
  | EmptyString => None
  | String c s1 =>
      if Ascii.eqb c dquote then Some ("", s1)
      else if Ascii.eqb c backslash then
        match s1 with
        | EmptyString => None
        | String e s2 =>
            if Ascii.eqb e "u" then
              match s2 with
              | String h1 (String h2 (String h3 (String h4 s3))) =>
                  match hex4 h1 h2 h3 h4 with
                  | Some n =>
                      if (n <? 128)%N then
                        match parse_chars s3 with
                        | Some (t, r) => Some (String (ascii_of_N n) t, r)
                        | None => None
                        end
                      else None
                  | None => None
                  end
              | _ => None
              end
            else
              match unescape e with
              | Some c' =>
                  match parse_chars s2 with
                  | Some (t, r) => Some (String c' t, r)
                  | None => None
                  end
              | None => None
              end
        end
      else if (N_of_ascii c <? 32)%N then None
      else
        match parse_chars s1 with
        | Some (t, r) => Some (String c t, r)
        | None => None
        end
  end.

Definition parse_string (s : string) : option (string * string) :=
  match s with
  | EmptyString => None
  | String c s1 => if Ascii.eqb c dquote then parse_chars s1 else None
  end.

Definition drop (n : nat) (s : string) : string :=
  String.substring n (String.length s - n) s.

(** The members of an object after its opening brace, [s] standing at the
    first of them; [parse_member_value] reads the value of a member.  A key
    met again takes the new value. *)
Fixpoint parse_members
  (parse_member_value : string -> option (value * string))
  (n : nat) (acc : object) (s : string) : option (value * string) :=
  match n with
  | O => None
  | S n' =>
      match parse_string s with
      | Some (k, r1) =>
          match skip_ws r1 with
          | String ":" r2 =>
              match parse_member_value (skip_ws r2) with
              | Some (v, r3) =>
                  let acc' := JsObject.set k v acc in
                  match skip_ws r3 with
                  | String "," r4 =>
                      parse_members parse_member_value n' acc' (skip_ws r4)
                  | String "}" r4 => Some (VObject acc', r4)
                  | _ => None
                  end
              | None => None
              end
          | _ => None
          end
      | None => None
      end
  end.

(** One value at the head of [s], and the text after it.  [fuel] bounds
    the nesting of objects and the number of members of each. *)
Fixpoint parse_value (fuel : nat) (s : string) : option (value * string) :=
  match fuel with
  | O => None
  | S fuel' =>
      match s with
      | EmptyString => None
      | String c s1 =>
          if Ascii.eqb c dquote then
            match parse_chars s1 with
            | Some (t, r) => Some (VString t, r)
            | None => None
            end
          else if Ascii.eqb c "{" then
            match skip_ws s1 with
            | String "}" r => Some (VObject [], r)
            | s2 => parse_members (parse_value fuel') fuel' [] s2
            end
          else if String.prefix "true" s then Some (VBool true, drop 4 s)
          else if String.prefix "false" s then Some (VBool false, drop 5 s)
          else None
      end
  end.

(** [JSON.parse(text)]: one value, white space around it, nothing else. *)
Definition parse (text : string) : option value :=
  match parse_value (S (String.length text)) (skip_ws text) with
  | Some (v, r) => if String.eqb (skip_ws r) "" then Some v else None
  | None => None
  end.

End Json.

(** What a JSON text keeps of a value: the properties that are not
    [undefined], at every depth. *)
Definition is_defined (v : value) : bool :=
  match v with
  | VUndefined => false
  | _ => true
  end.

Fixpoint prune (v : value) : value :=
  match v with
  | VObject props =>
      VObject (flat_map
                 (fun kv =>
                    if is_defined (snd kv) then [(fst kv, prune (snd kv))]
                    else []) props)
  | _ => v
  end.

(** A value without [undefined] at any depth: every property of it has a
    place in a JSON text. *)
Fixpoint all_defined (v : value) : bool :=
  match v with
  | VUndefined => false
  | VObject props => forallb (fun kv => all_defined (snd kv)) props
  | _ => true
  end.

(** A bound on the fuel [Json.parse_value] needs for the text of [v]. *)
Fixpoint size (v : value) : nat :=
  match v with
  | VUndefined => 0
  | VObject props => S (list_sum (map (fun kv => size (snd kv)) props))
  | _ => 1
  end.

(** Reading a chain of properties, [v.k1.k2...]; reading a property of what
    is not an object gives [undefined]. *)
Fixpoint get_path (path : list string) (v : value) : value :=
  match path with
  | [] => v
  | k :: path' =>
      match v with
      | VObject props => get_path path' (JsObject.get k props)
      | _ => VUndefined
      end
  end.

(** What a read shows of a value: its type, and the value itself when it is
    primitive. *)
Inductive observation : Type :=
| OUndefined
| OBool (b : bool)
| OString (s : string)
| OObject.

Definition observe (v : value) : observation :=
  match v with
  | VUndefined => OUndefined
  | VBool b => OBool b
  | VString s => OString s
  | VObject _ => OObject
  end.

(* ================================================================= *)
(** ** What the plugin runs in *)

(** How a call ends: with a result, or with an exception. *)
Inductive js_error : Type :=
| TypeError
| FsError (code : string).

Inductive completion (A : Type) : Type :=
| Normal (a : A)
| Throw (e : js_error).

Arguments Normal {A} a.
Arguments Throw {A} e.

Module NodePath.

Fixpoint drop_slashes (l : list ascii) : list ascii :=
  match l with
  | c :: l' => if Ascii.eqb c "/" then drop_slashes l' else l
  | [] => []
  end.

Fixpoint until_slash (l : list ascii) : list ascii :=
  match l with
  | c :: l' => if Ascii.eqb c "/" then [] else c :: until_slash l'
  | [] => []
  end.


(** [path.basename(p)] of POSIX paths: the last segment of [p], slashes at
    the end of [p] set aside. *)
Definition basename (p : string) : string :=
  string_of_list_ascii
    (rev (until_slash (drop_slashes (rev (list_ascii_of_string p))))).

End NodePath.

Module NodeFs.

Inductive entry : Type :=
| File (content : string)
| Directory.

Definition file_system : Type := string -> option entry.

(** [fs.existsSync(p)] *)
Definition existsSync (fs : file_system) (p : string) : bool :=
  match fs p with
  | Some _ => true
  | None => false
  end.

(** [await fs.promises.readFile(p, 'utf-8')] *)
Definition readFile (fs : file_system) (p : string) : completion string :=
  match fs p with
  | Some (File content) => Normal content
  | Some Directory => Throw (FsError "EISDIR")
  | None => Throw (FsError "ENOENT")
  end.

End NodeFs.

(** The part of Vite's resolved configuration that [configResolved] reads:
    the plugins, and what vite-plugin-svelte shows of its options. *)
Module Vite.

Record kit_config : Type := { outDir : option string }.

(** [experimental.nvim_inspector]: a boolean, or an options record. *)
Inductive inspector_setting : Type :=
| SettingBool (b : bool)
| SettingOptions (o : object).

Record experimental_options : Type :=
  { nvim_inspector : option inspector_setting }.

Record svelte_options : Type :=
  { experimental : option experimental_options;
    kit : option kit_config }.

Record plugin_api : Type := { options : option svelte_options }.

Record plugin : Type := { name : string; api : option plugin_api }.

Record resolved_config : Type := { plugins : list plugin }.

(** The second argument of [resolveId], [load] and [transform]. *)
Record hook_options : Type := { ssr : option bool }.

(** [options?.ssr] as a condition *)
Definition is_ssr (o : option hook_options) : bool :=
  match o with
  | Some {| ssr := Some b |} => b
  | _ => false
  end.

(** The payload of a message of the development socket. *)
Record client_data : Type := { msg : option string }.

(** [server.ws]: the listeners, and what emitting an event runs.  A
    listener is described by the shell commands it starts, in order. *)
Definition listener : Type := client_data -> list string.

Definition ws_server : Type := list (string * listener).

Definition on (event : string) (l : listener) (ws : ws_server) : ws_server :=
  (ws ++ [(event, l)])%list.

Definition emit (ws : ws_server) (event : string) (data : client_data)
  : list string :=
  flat_map (fun el => if String.eqb (fst el) event then snd el data else [])
           ws.

(** One entry of the [tags] of [transformIndexHtml]'s result. *)
Record html_tag : Type :=
  { tag : string; injectTo : string; attrs : list (string * string) }.

End Vite.

(* ================================================================= *)
(** ** The plugin *)

Module Inspector.
Import Vite.

(** [defaultInspectorOptions]; [platform] is [process.platform]. *)
Definition defaultInspectorOptions (platform : string) : object :=
  [ ("toggleKeyCombo",
      VString (if String.eqb platform "win32"
               then "control-shift" else "meta-shift"));
    ("navKeys",
      VObject [ ("parent", VString "ArrowUp");
                ("child", VString "ArrowDown");
                ("next", VString "ArrowRight");
                ("prev", VString "ArrowLeft") ]);
    ("openKey", VString "Enter");
    ("holdMode", VBool false);
    ("showToggleButton", VString "active");
    ("toggleButtonPos", VString "top-right");
    ("customStyles", VBool true) ].

(** [getInspectorPath()]; [pluginPath] is
    [normalizePath(path.dirname(fileURLToPath(import.meta.url)))], the
    directory of the plugin's file.  The pattern is anchored at the end and
    the replacement has no [$]. *)
Definition getInspectorPath (pluginPath : string) : string :=
  let suffix := "/vite-plugin-svelte/dist" in
  if JsString.endsWith suffix pluginPath
  then JsString.drop_last (String.length suffix) pluginPath
         ++ "/vite-plugin-svelte/src/ui/inspector/"
  else pluginPath.

(** The variables the hooks close over.  [inspectorPath] is constant;
    [inspectorOptions] is [None] until it is assigned. *)
Definition inspectorPath (pluginPath : string) : string :=
  getInspectorPath pluginPath ++ "/".

Record session : Type :=
  { inspectorOptions : option object;
    appendTo : value;
    disabled : bool }.

Definition initial_session : session :=
  {| inspectorOptions := None; appendTo := VUndefined; disabled := false |}.

Definition options_id : string := "virtual:svelte-inspector-options".
Definition path_prefix : string := "virtual:svelte-inspector-path:".

(** [vps?.api?.options] *)
Definition svelte_options_of (vps : option plugin) : option svelte_options :=
  match vps with
  | Some p => match api p with
              | Some a => options a
              | None => None
              end
  | None => None
  end.

(** [vps?.api?.options?.experimental?.nvim_inspector] *)
Definition inspector_setting_of (vps : option plugin)
  : option inspector_setting :=
  match svelte_options_of vps with
  | Some o => match experimental o with
              | Some e => nvim_inspector e
              | None => None
              end
  | None => None
  end.

Definition setting_truthy (s : option inspector_setting) : bool :=
  match s with
  | Some (SettingBool b) => b
  | Some (SettingOptions _) => true
  | None => false
  end.

(** The own properties a spread element copies. *)
Definition spread_source (s : option inspector_setting) : object :=
  match s with
  | Some (SettingOptions o) => o
  | _ => []
  end.

(** The options record of the setting, when it is one, is an object well
    formed at every depth. *)
Definition setting_well_formed (s : option inspector_setting) : bool :=
  well_formed (VObject (spread_source s)).

(** [{ ...defaultInspectorOptions, ...nvim_inspector }] *)
Definition merge_options (platform : string) (s : option inspector_setting)
  : object :=
  JsObject.assign (JsObject.assign [] (defaultInspectorOptions platform))
                  (spread_source s).

(** [path.basename(vps.api.options.kit.outDir || '.svelte-kit')] *)
Definition out_dir (k : kit_config) : string :=
  NodePath.basename
    (JsString.or_else (match outDir k with Some d => d | None => "" end)
                      ".svelte-kit").

(** The assignment [inspectorOptions.appendTo = ...] of a kit project whose
    options name no append target. *)
Definition with_kit_appendTo (so : svelte_options) (o : object) : object :=
  match kit so with
  | Some k =>
      if negb (truthy (JsObject.get "appendTo" o))
      then JsObject.set "appendTo"
             (VString (out_dir k ++ "/generated/root.svelte")) o
      else o
  | None => o
  end.

Definition configResolved (platform : string) (st : session)
  (config : resolved_config) : completion session :=
  let vps :=
    find (fun p => String.eqb (name p) "vite-plugin-svelte") (plugins config) in
  let setting := inspector_setting_of vps in
  let opts :=
    if setting_truthy setting then Some (merge_options platform setting)
    else inspectorOptions st in
  match vps, opts with
  | None, _ | _, None =>
      Normal {| inspectorOptions := opts;
                appendTo := appendTo st;
                disabled := true |}
  | Some p, Some o =>
      match api p with
      | None => Throw TypeError
      | Some a =>
          match options a with
          | None => Throw TypeError
          | Some so =>
              let o' := with_kit_appendTo so o in
              Normal {| inspectorOptions := Some o';
                        appendTo := JsObject.get "appendTo" o';
                        disabled := disabled st |}
          end
      end
  end.

(** The two [substring] calls of the listener. *)
Definition location_file (m : string) : string :=
  JsString.substring m 0 (JsString.indexOf ":" m).

Definition location_row (m : string) : string :=
  JsString.or_else
    (JsString.substring m (JsString.indexOf ":" m + 1)
                          (JsString.lastIndexOf ":" m))
    "0".

(** The listener of [my:from-client]: the second command is started from
    the callback of the first, whatever the first did. *)
Definition from_client (data : client_data) : list string :=
  let m := match msg data with Some m => m | None => "" end in
  let file := location_file m in
  let row := location_row m in
  [ "nvim --server ~/.cache/nvim/server.pipe --remote " ++ file;
    "nvim --server ~/.cache/nvim/server.pipe --remote-send '"
      ++ row ++ "<s-g>'" ].

Definition configureServer (ws : ws_server) : ws_server :=
  on "my:from-client" from_client ws.

Definition resolveId (pluginPath : string) (st : session)
  (importee : string) (o : option hook_options) : option string :=
  if is_ssr o || disabled st then None
  else if JsString.startsWith options_id importee then Some importee
  else if JsString.startsWith path_prefix importee then
    Some (JsString.replace path_prefix (inspectorPath pluginPath) importee)
  else None.

Section Load.
(** [idToFile] of the plugin's utilities, which turns an id into the path
    of a file. *)
Variable idToFile : string -> string.
Variable fs : NodeFs.file_system.

Definition load (pluginPath : string) (st : session) (id : string)
  (o : option hook_options) : completion (option string) :=
  if is_ssr o || disabled st then Normal None
  else if String.eqb id options_id then
    match Json.stringify
            (VObject (match inspectorOptions st with
                      | Some opts => opts
                      | None => []
                      end)) with
    | Some json => Normal (Some ("export default " ++ json))
    | None => Normal (Some "export default undefined")
    end
  else if JsString.startsWith (inspectorPath pluginPath) id then
    let file := idToFile id in
    if NodeFs.existsSync fs file then
      match NodeFs.readFile fs file with
      | Normal text => Normal (Some text)
      | Throw e => Throw e
      end
    else Normal None
  else Normal None.
End Load.

Record transform_result : Type := { code : string }.

Definition newline : string := String (ascii_of_N 10) "".

Definition injected_import : string :=
  "import 'virtual:svelte-inspector-path:load-inspector.js'".

Definition transform (st : session) (source id : string)
  (o : option hook_options) : option transform_result :=
  if is_ssr o || disabled st || negb (truthy (appendTo st)) then None
  else if JsString.endsWith (to_js_string (appendTo st)) id then
    Some {| code := source ++ newline ++ injected_import |}
  else None.

Record html_result : Type := { html : string; tags : list html_tag }.

Definition transformIndexHtml (st : session) (page : string)
  : option html_result :=
  if disabled st || truthy (appendTo st) then None
  else
    Some {| html := page;
            tags :=
              [ {| tag := "script";
                   injectTo := "body";
                   attrs :=
                     [ ("type", "module");
                       ("src",
                        "/@id/virtual:svelte-inspector-path:load-inspector.js")
                     ] |} ] |}.

End Inspector.

(* ================================================================= *)
(** ** Configurations to run the plugin on *)

Module Sample.
Import Vite.

(** vite-plugin-svelte with the options [so]. *)
Definition companion (so : svelte_options) : plugin :=
  {| name := "vite-plugin-svelte";
     api := Some {| options := Some so |} |}.

(** The project of the repository: [svelte.config.js] has a kit
    configuration and sets [nvim_inspector] to [true]; [vite.config.js]
    lists the plugins of the kit. *)
Definition repository_options : svelte_options :=
  {| experimental := Some {| nvim_inspector := Some (SettingBool true) |};
     kit := Some {| outDir := Some "/srv/app/.svelte-kit" |} |}.

Definition repository_config : resolved_config :=
  {| plugins := [ {| name := "vite-plugin-sveltekit-setup"; api := None |};
                  companion repository_options ] |}.

(** A project without kit whose options give one navigation key. *)
Definition nav_user_options : object :=
  [ ("navKeys", VObject [("parent", VString "w")]);
    ("openKey", VUndefined) ].

Definition nav_options : svelte_options :=
  {| experimental :=
       Some {| nvim_inspector := Some (SettingOptions nav_user_options) |};
     kit := None |}.

Definition nav_config : resolved_config :=
  {| plugins := [ companion nav_options ] |}.



End Sample.

(* ================================================================= *)
(** * Properties *)

(** ** Facts about strings *)

Section StringFacts.

Lemma append_nil_r (s : string) : s ++ "" = s.
Proof. induction s as [|c s IH]; simpl; [reflexivity | now rewrite IH]. Qed.

Lemma append_assoc (a b c : string) : (a ++ b) ++ c = a ++ (b ++ c).
Proof. induction a as [|x a IH]; simpl; [reflexivity | now rewrite IH]. Qed.

Lemma length_append (a b : string) :
  String.length (a ++ b) = (String.length a + String.length b)%nat.
Proof. induction a as [|x a IH]; simpl; [reflexivity | now rewrite IH]. Qed.

Lemma prefix_append (p s : string) : String.prefix p (p ++ s) = true.
Proof.
  induction p as [|c p IH]; simpl.
  - now destruct s.
  - destruct (ascii_dec c c) as [_|n]; [exact IH | now elim n].
Qed.

Lemma prefix_split (p s : string) :
  String.prefix p s = true -> exists r, s = p ++ r.
Proof.
  revert s; induction p as [|c p IH]; intros s H.
  - now exists s.
  - destruct s as [|d s]; simpl in H; [discriminate|].
    destruct (ascii_dec c d) as [->|]; [|discriminate].
    destruct (IH _ H) as [r ->]. now exists r.
Qed.

Lemma substring_all (s : string) :
  String.substring 0 (String.length s) s = s.
Proof. induction s as [|c s IH]; simpl; [reflexivity | now rewrite IH]. Qed.

Lemma substring_head (a b : string) :
  String.substring 0 (String.length a) (a ++ b) = a.
Proof.
  induction a as [|c a IH]; simpl; [now destruct b | now rewrite IH].
Qed.

Lemma substring_skip (a b : string) (n : nat) :
  String.substring (String.length a) n (a ++ b) = String.substring 0 n b.
Proof. induction a as [|c a IH]; simpl; [reflexivity | exact IH]. Qed.

Lemma substring_tail (a b : string) :
  String.substring (String.length a) (String.length b) (a ++ b) = b.
Proof. now rewrite substring_skip, substring_all. Qed.

Lemma list_sum_cons (x : nat) (l : list nat) :
  list_sum (x :: l) = (x + list_sum l)%nat.
Proof. reflexivity. Qed.

Lemma concat_cons (sep x : string) (l : list string) :
  l <> [] -> String.concat sep (x :: l) = x ++ sep ++ String.concat sep l.
Proof. destruct l; [contradiction | reflexivity]. Qed.

Lemma has_char_append (c : ascii) (a b : string) :
  JsString.has_char c (a ++ b)
  = JsString.has_char c a || JsString.has_char c b.
Proof.
  induction a as [|x a IH]; simpl; [reflexivity|].
  now rewrite IH, orb_assoc.
Qed.

(** A one-character pattern is a prefix of [s] when [s] starts with it. *)
Lemma prefix_char (c d : ascii) (s : string) :
  String.prefix (String c "") (String d s) = Ascii.eqb d c.
Proof.
  simpl. destruct (ascii_dec c d) as [->|n].
  - rewrite Ascii.eqb_refl. now destruct s.
  - symmetry. apply Ascii.eqb_neq. congruence.
Qed.

Lemma indexOf_from_absent (c : ascii) (s : string) (i : Z) :
  JsString.has_char c s = false ->
  JsString.indexOf_from (String c "") s i = -1.
Proof.
  revert i; induction s as [|d s IH]; intros i H; simpl in H.
  - reflexivity.
  - apply orb_false_iff in H as [Hd Hs].
    cbn [JsString.indexOf_from].
    rewrite prefix_char, Hd. now apply IH.
Qed.

Lemma indexOf_from_first (c : ascii) (pre post : string) (i : Z) :
  JsString.has_char c pre = false ->
  JsString.indexOf_from (String c "") (pre ++ String c post) i
  = i + Z.of_nat (String.length pre).
Proof.
  revert i; induction pre as [|d pre IH]; intros i H; simpl in H.
  - change ("" ++ String c post) with (String c post).
    cbn [JsString.indexOf_from].
    rewrite prefix_char, Ascii.eqb_refl. simpl. lia.
  - apply orb_false_iff in H as [Hd Hs].
    change (String d pre ++ String c post)
      with (String d (pre ++ String c post)).
    cbn [JsString.indexOf_from].
    rewrite prefix_char, Hd, IH by assumption.
    simpl String.length. lia.
Qed.

Lemma lastIndexOf_from_absent (c : ascii) (s : string) (i : Z) :
  JsString.has_char c s = false ->
  JsString.lastIndexOf_from (String c "") s i = -1.
Proof.
  revert i; induction s as [|d s IH]; intros i H; simpl in H.
  - reflexivity.
  - apply orb_false_iff in H as [Hd Hs].
    cbn [JsString.lastIndexOf_from].
    rewrite IH by assumption. rewrite prefix_char, Hd. reflexivity.
Qed.

Lemma lastIndexOf_from_last (c : ascii) (pre post : string) (i : Z) :
  0 <= i ->
  JsString.has_char c post = false ->
  JsString.lastIndexOf_from (String c "") (pre ++ String c post) i
  = i + Z.of_nat (String.length pre).
Proof.
  revert i; induction pre as [|d pre IH]; intros i Hi H.
  - change ("" ++ String c post) with (String c post).
    cbn [JsString.lastIndexOf_from].
    rewrite lastIndexOf_from_absent by assumption.
    rewrite prefix_char, Ascii.eqb_refl. simpl. lia.
  - change (String d pre ++ String c post)
      with (String d (pre ++ String c post)).
    cbn [JsString.lastIndexOf_from].
    rewrite IH by (assumption || lia).
    destruct (Z.leb_spec 0 (i + 1 + Z.of_nat (String.length pre)));
      simpl String.length; lia.
Qed.

End StringFacts.

Section SubstringFacts.

Lemma js_substring_within (s : string) (a b : Z) :
  0 <= a <= b -> b <= Z.of_nat (String.length s) ->
  JsString.substring s a b
  = String.substring (Z.to_nat a) (Z.to_nat (b - a)) s.
Proof.
  intros Hab Hb. unfold JsString.substring, JsString.clamp.
  rewrite (Z.max_l a 0), (Z.max_l b 0) by lia.
  rewrite (Z.min_l a), (Z.min_l b) by lia.
  rewrite Z.min_l, Z.max_r by lia. reflexivity.
Qed.

Lemma js_substring_empty (s : string) (a b : Z) :
  a <= 0 -> b <= 0 -> JsString.substring s a b = "".
Proof.
  intros Ha Hb. unfold JsString.substring, JsString.clamp.
  rewrite (Z.max_r a 0), (Z.max_r b 0) by lia.
  rewrite Z.min_l by lia. simpl. now destruct s.
Qed.

Lemma substring_split (s : string) (k : nat) :
  (k <= String.length s)%nat ->
  s = String.substring 0 k s
        ++ String.substring k (String.length s - k) s.
Proof.
  revert k; induction s as [|c s IH]; intros k Hk; simpl in Hk.
  - now replace k with 0%nat by lia.
  - destruct k as [|k].
    + simpl. now rewrite substring_all.
    + simpl. f_equal. apply IH. lia.
Qed.

Lemma endsWith_append (p stem : string) :
  JsString.endsWith p (stem ++ p) = true.
Proof.
  unfold JsString.endsWith, JsString.last_chars.
  rewrite length_append.
  replace (String.length stem + String.length p - String.length p)%nat
    with (String.length stem) by lia.
  rewrite substring_tail, String.eqb_refl, andb_true_r.
  apply Nat.leb_le. lia.
Qed.

Lemma endsWith_split (p s : string) :
  JsString.endsWith p s = true -> exists stem, s = stem ++ p.
Proof.
  unfold JsString.endsWith, JsString.last_chars. intros H.
  apply andb_true_iff in H as [Hlen Heq].
  apply Nat.leb_le in Hlen. apply String.eqb_eq in Heq.
  exists (String.substring 0 (String.length s - String.length p) s).
  pose proof (substring_split s (String.length s - String.length p)) as E.
  replace (String.length s - (String.length s - String.length p))%nat
    with (String.length p) in E by lia.
  rewrite Heq in E. apply E. lia.
Qed.

Lemma getSubstitution_plain (matched before after t : string) :
  JsString.has_char "$" t = false ->
  JsString.getSubstitution matched before after t = t.
Proof.
  induction t as [|c t IH]; intros H; [reflexivity|].
  simpl in H. apply orb_false_iff in H as [Hc Ht].
  specialize (IH Ht).
  destruct c as [[] [] [] [] [] [] [] []]; try discriminate Hc;
    cbn [JsString.getSubstitution]; now rewrite IH.
Qed.

Lemma indexOf_at_head (p rest : string) :
  JsString.indexOf p (p ++ rest) = 0.
Proof.
  unfold JsString.indexOf.
  pose proof (prefix_append p rest) as H.
  destruct (p ++ rest); cbn [JsString.indexOf_from]; now rewrite H.
Qed.

(** Replacing a pattern the string starts with. *)
Lemma replace_at_head (p r rest : string) :
  JsString.replace p r (p ++ rest)
  = JsString.getSubstitution p "" rest r ++ rest.
Proof.
  unfold JsString.replace. rewrite indexOf_at_head.
  cbn [Z.ltb Z.compare Z.to_nat Nat.add].
  rewrite length_append.
  replace (String.length p + String.length rest - String.length p)%nat
    with (String.length rest) by lia.
  rewrite substring_tail.
  replace (String.substring 0 0 (p ++ rest)) with "" by now destruct (p ++ rest).
  reflexivity.
Qed.

End SubstringFacts.

(* ================================================================= *)
(** ** The listener of the development socket *)

Import Vite Inspector.

Section Location.

Lemma location_file_before_first_colon (pre post : string) :
  JsString.has_char ":" pre = false ->
  location_file (pre ++ ":" ++ post) = pre.
Proof.
  intros Hpre. unfold location_file, JsString.indexOf.
  change (":" ++ post) with (String ":" post).
  change ":" with (String ":" "").
  rewrite indexOf_from_first by assumption.
  rewrite js_substring_within by (rewrite ?length_append; simpl; lia).
  rewrite Z.sub_0_r, Z.add_0_l, Nat2Z.id. apply substring_head.
Qed.

Lemma location_row_between_colons (pre mid post : string) :
  JsString.has_char ":" pre = false ->
  JsString.has_char ":" post = false ->
  location_row (pre ++ ":" ++ mid ++ ":" ++ post) = JsString.or_else mid "0".
Proof.
  intros Hpre Hpost.
  unfold location_row, JsString.indexOf, JsString.lastIndexOf.
  f_equal.
  change (":" ++ post) with (String ":" post).
  change (":" ++ mid ++ String ":" post)
    with (String ":" (mid ++ String ":" post)).
  change ":" with (String ":" "").
  rewrite indexOf_from_first by assumption.
  replace (pre ++ String ":" (mid ++ String ":" post))
    with ((pre ++ String ":" mid) ++ String ":" post)
    by (now rewrite append_assoc).
  rewrite lastIndexOf_from_last by (assumption || lia).
  rewrite js_substring_within
    by (rewrite ?length_append; simpl; rewrite ?length_append; simpl; lia).
  rewrite length_append. simpl String.length.
  replace (Z.to_nat (0 + Z.of_nat (String.length pre) + 1))
    with (String.length (pre ++ String ":" "")) by (rewrite length_append; simpl; lia).
  replace (Z.to_nat _) with (String.length mid) by lia.
  replace ((pre ++ String ":" mid) ++ String ":" post)
    with ((pre ++ String ":" "") ++ (mid ++ String ":" post))
    by (now rewrite !append_assoc).
  rewrite substring_skip. apply substring_head.
Qed.

Lemma location_without_colon (m : string) :
  JsString.has_char ":" m = false ->
  location_file m = "" /\ location_row m = "0".
Proof.
  intros H. unfold location_file, location_row.
  unfold JsString.indexOf, JsString.lastIndexOf.
  change ":" with (String ":" "").
  rewrite indexOf_from_absent, lastIndexOf_from_absent by assumption.
  now rewrite !js_substring_empty by lia.
Qed.

End Location.

(** C2, as the code has it.  The file is the text before the first colon, and
    the empty text (not the whole message) when the message has no colon.
    When the message has two colons or more, the row is the text between the
    first and the last of them, and 0 when that text is empty; the row is 0
    as well when there is no colon.  So src/App.svelte:42:extra gives the
    file src/App.svelte and the row 42, and onlyfile gives an empty file and
    the row 0. *)
Theorem location_of_message :
  (location_file "src/App.svelte:42:extra" = "src/App.svelte"
   /\ location_row "src/App.svelte:42:extra" = "42")
  /\ (location_file "onlyfile" = "" /\ location_row "onlyfile" = "0")
  /\ (forall pre post,
        JsString.has_char ":" pre = false ->
        location_file (pre ++ ":" ++ post) = pre)
  /\ (forall pre mid post,
        JsString.has_char ":" pre = false ->
        JsString.has_char ":" post = false ->
        location_row (pre ++ ":" ++ mid ++ ":" ++ post)
        = if String.eqb mid "" then "0" else mid)
  /\ (forall m,
        JsString.has_char ":" m = false ->
        location_file m = "" /\ location_row m = "0").
Proof.
  split; [now vm_compute|].
  split; [now vm_compute|].
  split; [exact location_file_before_first_colon|].
  split; [exact location_row_between_colons | exact location_without_colon].
Qed.

Lemma location_of_message_witness :
  location_file ("lib/Nav.svelte" ++ ":" ++ "7:3") = "lib/Nav.svelte"
  /\ location_row ("lib/Nav.svelte" ++ ":" ++ "" ++ ":" ++ "3") = "0"
  /\ location_row ("lib/Nav.svelte" ++ ":" ++ "7" ++ ":" ++ "3") = "7"
  /\ location_file "lib/Nav.svelte" = "".
Proof.
  destruct location_of_message as (_ & _ & Hfile & Hrow & Hnone).
  split; [apply Hfile; reflexivity|].
  split; [apply (Hrow "lib/Nav.svelte" "" "3"); reflexivity|].
  split; [apply (Hrow "lib/Nav.svelte" "7" "3"); reflexivity|].
  apply Hnone; reflexivity.
Defined.

(** C2 as the specification words it fails on a message without a colon: the
    file is the empty text, not the message. *)
Lemma location_file_no_colon_counterexample :
  location_file "onlyfile" <> "onlyfile"
  /\ location_file "onlyfile" = "".
Proof. split; [discriminate | reflexivity]. Qed.

(** With one colon only, the row is that colon. *)
Example location_row_single_colon : location_row "a.svelte:5" = ":".
Proof. reflexivity. Qed.

(* ================================================================= *)
(** ** Resolving the virtual ids *)

Section Resolve.

Variable pluginPath : string.
Variable st : session.
Variable o : option hook_options.
Hypothesis client : is_ssr o = false.
Hypothesis enabled : disabled st = false.

(** Every id that begins with the options id is resolved to itself. *)
Lemma resolveId_options_extended (ext : string) :
  resolveId pluginPath st (options_id ++ ext) o = Some (options_id ++ ext).
Proof.
  unfold resolveId, JsString.startsWith.
  now rewrite client, enabled, prefix_append.
Qed.

(** An id that begins with the path prefix does not begin with the options
    id; the prefix is replaced by the expansion of [inspectorPath]. *)
Lemma resolveId_path_rewritten (rest : string) :
  resolveId pluginPath st (path_prefix ++ rest) o
  = Some (JsString.getSubstitution path_prefix "" rest (inspectorPath pluginPath)
            ++ rest).
Proof.
  unfold resolveId, JsString.startsWith.
  rewrite client, enabled, prefix_append, replace_at_head.
  reflexivity.
Qed.

(** When the directory has no dollar sign, the rewritten id is the
    directory followed by the rest of the id. *)
Lemma resolveId_path_plain (rest : string) :
  JsString.has_char "$" (inspectorPath pluginPath) = false ->
  resolveId pluginPath st (path_prefix ++ rest) o
  = Some (inspectorPath pluginPath ++ rest).
Proof.
  intros H. now rewrite resolveId_path_rewritten, getSubstitution_plain.
Qed.

(** Any other id is left to the other plugins. *)
Lemma resolveId_other (importee : string) :
  JsString.startsWith options_id importee = false ->
  JsString.startsWith path_prefix importee = false ->
  resolveId pluginPath st importee o = None.
Proof.
  intros H1 H2. unfold resolveId. now rewrite client, enabled, H1, H2.
Qed.

End Resolve.

(** [inspectorPath] ends with a slash, whatever the directory of the plugin. *)
Lemma inspectorPath_ends_with_slash (pluginPath : string) :
  JsString.endsWith "/" (inspectorPath pluginPath) = true.
Proof. apply endsWith_append. Qed.

(** C3 as the specification words it (an exact match only) fails: an id that
    extends the options id, and does not begin with the path prefix, is
    resolved to itself as the options id is. *)
Lemma resolveId_exact_match_counterexample :
  resolveId "/srv/app/custom-plugins/inspector" initial_session
    "virtual:svelte-inspector-options-extra" None
  = Some "virtual:svelte-inspector-options-extra"
  /\ "virtual:svelte-inspector-options-extra" <> options_id
  /\ JsString.startsWith path_prefix "virtual:svelte-inspector-options-extra"
     = false.
Proof. repeat split; [discriminate]. Qed.

(** C6, where the code departs from it.  The plugin lives in the directory
    /srv/a$$b: [inspectorPath] is /srv/a$$b/, and the loader id is resolved
    to /srv/a$b/load-inspector.js, which is not [inspectorPath] followed by
    load-inspector.js and does not begin with [inspectorPath]. *)
Theorem resolveId_path_dollar_directory :
  inspectorPath "/srv/a$$b" = "/srv/a$$b/"
  /\ resolveId "/srv/a$$b" initial_session
       "virtual:svelte-inspector-path:load-inspector.js" None
     = Some "/srv/a$b/load-inspector.js"
  /\ "/srv/a$b/load-inspector.js"
     <> inspectorPath "/srv/a$$b" ++ "load-inspector.js"
  /\ JsString.startsWith (inspectorPath "/srv/a$$b")
       "/srv/a$b/load-inspector.js" = false.
Proof. repeat split; [discriminate]. Qed.

(* ================================================================= *)
(** ** The two ways of delivering the loader *)

(** C7.  In a session that is not disabled, outside server rendering and
    with the append target [suffix], [transform] gives a file whose id ends
    with [suffix] its source text followed by a line break and one import of
    the loader through the path prefix; it returns nothing for a file whose id
    does not end with [suffix]. *)
Theorem transform_appends_import
  (st : session) (o : option hook_options) (suffix source : string) :
  is_ssr o = false ->
  disabled st = false ->
  appendTo st = VString suffix ->
  suffix <> "" ->
  (forall stem,
     transform st source (stem ++ suffix) o
     = Some {| code := source ++ newline
                 ++ "import '" ++ path_prefix ++ "load-inspector.js'" |})
  /\ (forall id,
        (forall stem, id <> stem ++ suffix) ->
        transform st source id o = None).
Proof.
  intros Hssr Hen Hto Hne.
  assert (Htruthy : truthy (appendTo st) = true).
  { rewrite Hto. simpl. now apply negb_true_iff, String.eqb_neq. }
  split.
  - intros stem. unfold transform.
    rewrite Hssr, Hen, Htruthy, Hto. simpl to_js_string.
    now rewrite endsWith_append.
  - intros id Hid. unfold transform.
    rewrite Hssr, Hen, Htruthy, Hto. simpl to_js_string.
    destruct (JsString.endsWith suffix id) eqn:E; [|reflexivity].
    destruct (endsWith_split _ _ E) as [stem ->]. now elim (Hid stem).
Qed.

Lemma transform_appends_import_witness :
  transform
    {| inspectorOptions := None;
       appendTo := VString ".svelte-kit/generated/root.svelte";
       disabled := false |}
    "<slot />" ("/srv/app/" ++ ".svelte-kit/generated/root.svelte") None
  = Some {| code := "<slot />" ++ newline
              ++ "import '" ++ path_prefix ++ "load-inspector.js'" |}.
Proof.
  apply (transform_appends_import
           {| inspectorOptions := None;
              appendTo := VString ".svelte-kit/generated/root.svelte";
              disabled := false |}
           None ".svelte-kit/generated/root.svelte" "<slot />");
    (reflexivity || discriminate).
Defined.

(** C5.  A session with an append target never adds a tag to a page; a
    session without one never returns a changed source.  (An append target
    is present when [appendTo] is truthy: the empty string is none.)  So no
    session does both. *)
Theorem delivery_modes_exclusive (st : session) :
  (truthy (appendTo st) = true ->
   forall page, transformIndexHtml st page = None)
  /\ (truthy (appendTo st) = false ->
      forall source id o, transform st source id o = None)
  /\ (forall page source id o,
        transformIndexHtml st page = None \/ transform st source id o = None).
Proof.
  split; [|split].
  - intros H page. unfold transformIndexHtml. now rewrite H, orb_true_r.
  - intros H source id o. unfold transform. now rewrite H, orb_true_r.
  - intros page source id o. unfold transformIndexHtml, transform.
    destruct (truthy (appendTo st)).
    + left. now rewrite orb_true_r.
    + right. now rewrite orb_true_r.
Qed.

Lemma delivery_modes_exclusive_witness :
  transformIndexHtml
    {| inspectorOptions := None;
       appendTo := VString ".svelte-kit/generated/root.svelte";
       disabled := false |} "<html></html>" = None
  /\ transform
       {| inspectorOptions := None; appendTo := VUndefined; disabled := false |}
       "<slot />" "/srv/app/.svelte-kit/generated/root.svelte" None = None.
Proof.
  split.
  - apply (delivery_modes_exclusive
             {| inspectorOptions := None;
                appendTo := VString ".svelte-kit/generated/root.svelte";
                disabled := false |}). reflexivity.
  - apply (delivery_modes_exclusive
             {| inspectorOptions := None;
                appendTo := VUndefined; disabled := false |}). reflexivity.
Defined.

(** Without an append target, and not disabled, every page gets the tag. *)
Lemma transformIndexHtml_adds_tag (st : session) (page : string) :
  disabled st = false ->
  truthy (appendTo st) = false ->
  exists r, transformIndexHtml st page = Some r
            /\ html r = page /\ List.length (tags r) = 1%nat.
Proof.
  intros Hen Hto. unfold transformIndexHtml. rewrite Hen, Hto.
  eexists. repeat split.
Qed.

(* ================================================================= *)
(** ** The disabled session *)

(** X1.  The four hooks that test [disabled] return nothing once it is set,
    whatever the id, the source, the page and the file system. *)
Lemma disabled_hooks_return_nothing
  (idToFile : string -> string) (fs : NodeFs.file_system)
  (pluginPath : string) (st : session) :
  disabled st = true ->
  (forall id o, resolveId pluginPath st id o = None)
  /\ (forall id o, load idToFile fs pluginPath st id o = Normal None)
  /\ (forall source id o, transform st source id o = None)
  /\ (forall page, transformIndexHtml st page = None).
Proof.
  intros H. repeat split; intros;
    unfold resolveId, load, transform, transformIndexHtml;
    now rewrite H, ?orb_true_r.
Qed.

(** X2.  [configResolved] never clears [disabled]: a session that is
    disabled stays so. *)
Lemma disabled_is_terminal
  (platform : string) (st st' : session) (config : resolved_config) :
  disabled st = true ->
  configResolved platform st config = Normal st' ->
  disabled st' = true.
Proof.
  intros H. unfold configResolved.
  destruct (find _ _) as [p|];
    destruct (if setting_truthy _ then _ else _) as [opts|];
    try (intros [= <-]; reflexivity).
  destruct (api p) as [a|]; [|discriminate].
  destruct (options a) as [so|]; [|discriminate].
  intros [= <-]. exact H.
Qed.

(** C1, where the code departs from it.  Without the companion plugin the
    session is disabled, yet [configureServer] registers its listener all the
    same, and a message of the client starts the two editor commands. *)
Theorem disabled_session_runs_editor :
  configResolved "linux" initial_session {| plugins := [] |}
  = Normal {| inspectorOptions := None;
              appendTo := VUndefined;
              disabled := true |}
  /\ emit (configureServer []) "my:from-client"
       {| msg := Some "src/App.svelte:42:extra" |}
     = [ "nvim --server ~/.cache/nvim/server.pipe --remote src/App.svelte";
         "nvim --server ~/.cache/nvim/server.pipe --remote-send '42<s-g>'" ].
Proof. split; reflexivity. Qed.

(* ================================================================= *)
(** ** Loading the files of the inspector *)

Lemma inspectorPath_id_is_not_options_id (pluginPath id : string) :
  JsString.startsWith (inspectorPath pluginPath) id = true ->
  String.eqb id options_id = false.
Proof.
  intros H. apply prefix_split in H as [r ->].
  apply String.eqb_neq. intros E.
  assert (Hs : JsString.has_char "/" (inspectorPath pluginPath ++ r) = true).
  { unfold inspectorPath. rewrite !has_char_append. simpl.
    now rewrite orb_true_r. }
  rewrite E in Hs. discriminate Hs.
Qed.

(** X21.  In a session that is not disabled and outside server rendering,
    [load] of an id that begins with [inspectorPath] returns the text of the
    file the id stands for when the path is a file, and returns nothing,
    without an exception, when nothing exists at the path. *)
Theorem load_inspector_file
  (idToFile : string -> string) (fs : NodeFs.file_system)
  (pluginPath : string) (st : session) (id : string)
  (o : option hook_options) :
  is_ssr o = false ->
  disabled st = false ->
  JsString.startsWith (inspectorPath pluginPath) id = true ->
  (forall text,
     fs (idToFile id) = Some (NodeFs.File text) ->
     load idToFile fs pluginPath st id o = Normal (Some text))
  /\ (fs (idToFile id) = None ->
      load idToFile fs pluginPath st id o = Normal None).
Proof.
  intros Hssr Hen Hid.
  pose proof (inspectorPath_id_is_not_options_id _ _ Hid) as Hne.
  split.
  - intros text Hfile. unfold load, NodeFs.existsSync, NodeFs.readFile.
    now rewrite Hssr, Hen, Hne, Hid, Hfile.
  - intros Hnone. unfold load, NodeFs.existsSync.
    now rewrite Hssr, Hen, Hne, Hid, Hnone.
Qed.

Lemma load_inspector_file_witness :
  let fs := fun p =>
    if String.eqb p "/srv/app/custom-plugins/inspector/load-inspector.js"
    then Some (NodeFs.File "import './Inspector.svelte'") else None in
  load (fun id => id) fs "/srv/app/custom-plugins/inspector" initial_session
    "/srv/app/custom-plugins/inspector/load-inspector.js" None
  = Normal (Some "import './Inspector.svelte'")
  /\ load (fun id => id) fs "/srv/app/custom-plugins/inspector" initial_session
       "/srv/app/custom-plugins/inspector/missing.js" None
     = Normal None.
Proof.
  intros fs. split.
  - apply (load_inspector_file (fun id => id) fs
             "/srv/app/custom-plugins/inspector" initial_session
             "/srv/app/custom-plugins/inspector/load-inspector.js" None);
      reflexivity.
  - apply (load_inspector_file (fun id => id) fs
             "/srv/app/custom-plugins/inspector" initial_session
             "/srv/app/custom-plugins/inspector/missing.js" None);
      reflexivity.
Defined.

(** A path that exists and is a directory is outside both cases: reading it
    fails. *)
Example load_of_a_directory :
  load (fun id => id)
    (fun p => if String.eqb p "/srv/app/custom-plugins/inspector/"
              then Some NodeFs.Directory else None)
    "/srv/app/custom-plugins/inspector" initial_session
    "/srv/app/custom-plugins/inspector/" None
  = Throw (FsError "EISDIR").
Proof. reflexivity. Qed.

(* ================================================================= *)
(** ** Facts about objects *)

Section ObjectFacts.

Import JsObject.

Lemma has_existsb (k : string) (o : object) :
  has k o = existsb (String.eqb k) (keys o).
Proof.
  induction o as [|[k' v'] o IH]; simpl; [reflexivity|].
  now rewrite IH, String.eqb_sym.
Qed.

Lemma has_in (k : string) (o : object) :
  has k o = true <-> In k (keys o).
Proof.
  rewrite has_existsb, existsb_exists. split.
  - intros (x & Hx & E). apply String.eqb_eq in E. now subst.
  - intros H. exists k. split; [exact H | apply String.eqb_refl].
Qed.

Lemma get_absent (k : string) (o : object) :
  has k o = false -> get k o = VUndefined.
Proof.
  induction o as [|[k' v'] o IH]; simpl; [reflexivity|].
  intros H. apply orb_false_iff in H as [-> H]. now apply IH.
Qed.

Lemma get_overwrite_same (k : string) (v : value) (o : object) :
  has k o = true -> get k (overwrite k v o) = v.
Proof.
  induction o as [|[k' v'] o IH]; simpl; [discriminate|].
  destruct (String.eqb k' k) eqn:E; simpl; rewrite E; [reflexivity|].
  exact IH.
Qed.

Lemma get_overwrite_other (k k0 : string) (v : value) (o : object) :
  k0 <> k -> get k0 (overwrite k v o) = get k0 o.
Proof.
  intros Hne. induction o as [|[k' v'] o IH]; simpl; [reflexivity|].
  destruct (String.eqb k' k) eqn:E; simpl.
  - apply String.eqb_eq in E. subst k'.
    now replace (String.eqb k k0) with false
      by (symmetry; apply String.eqb_neq; congruence).
  - now rewrite IH.
Qed.

Lemma get_insert_index_same (n : N) (k : string) (v : value) (o : object) :
  has k o = false -> get k (insert_index n k v o) = v.
Proof.
  induction o as [|[k' v'] o IH]; simpl; intros H.
  - now rewrite String.eqb_refl.
  - apply orb_false_iff in H as [E H].
    destruct (array_index k') as [m|]; [destruct (m <=? n)%N|]; simpl;
      rewrite ?String.eqb_refl, ?E; auto.
Qed.

Lemma get_insert_index_other
  (n : N) (k k0 : string) (v : value) (o : object) :
  k0 <> k -> get k0 (insert_index n k v o) = get k0 o.
Proof.
  intros Hne.
  assert (E : String.eqb k k0 = false) by (apply String.eqb_neq; congruence).
  induction o as [|[k' v'] o IH]; simpl; [now rewrite E|].
  destruct (array_index k') as [m|]; [destruct (m <=? n)%N|]; simpl;
    rewrite ?E, ?IH; reflexivity.
Qed.

Lemma get_append_new (k k0 : string) (v : value) (o : object) :
  get k0 (o ++ [(k, v)])%list
  = if has k0 o then get k0 o else if String.eqb k k0 then v else VUndefined.
Proof.
  induction o as [|[k' v'] o IH]; simpl; [reflexivity|].
  destruct (String.eqb k' k0); simpl; [reflexivity | exact IH].
Qed.

(** Reading what was written. *)
Lemma get_set_same (k : string) (v : value) (o : object) :
  get k (set k v o) = v.
Proof.
  unfold set. destruct (has k o) eqn:H.
  - now apply get_overwrite_same.
  - destruct (array_index k) as [n|].
    + now apply get_insert_index_same.
    + now rewrite get_append_new, H, String.eqb_refl.
Qed.

(** Writing one property leaves the others as they are. *)
Lemma get_set_other (k k0 : string) (v : value) (o : object) :
  k0 <> k -> get k0 (set k v o) = get k0 o.
Proof.
  intros Hne. unfold set. destruct (has k o) eqn:H.
  - now apply get_overwrite_other.
  - destruct (array_index k) as [n|].
    + now apply get_insert_index_other.
    + rewrite get_append_new.
      replace (String.eqb k k0) with false
        by (symmetry; apply String.eqb_neq; congruence).
      destruct (has k0 o) eqn:H0; [reflexivity|].
      symmetry. now apply get_absent.
Qed.

Lemma nodup_keys_NoDup (ks : list string) :
  nodup_keys ks = true <-> NoDup ks.
Proof.
  induction ks as [|k ks IH]; simpl.
  - split; [constructor | reflexivity].
  - rewrite andb_true_iff, negb_true_iff, IH, NoDup_cons_iff.
    assert (E : existsb (String.eqb k) ks = false <-> ~ In k ks).
    { rewrite <- not_true_iff_false, existsb_exists. split.
      - intros H Hin. apply H. exists k. split; [exact Hin|apply String.eqb_refl].
      - intros H (x & Hx & Ex). apply String.eqb_eq in Ex. now subst. }
    now rewrite E.
Qed.

(** A spread copies every property of its source; where the source has the
    key, the copy has the value of the source. *)
Lemma get_assign (k : string) (target source : object) :
  NoDup (keys source) ->
  get k (assign target source)
  = if has k source then get k source else get k target.
Proof.
  unfold assign. revert target.
  induction source as [|[k1 v1] source IH]; intros target Hnd; simpl.
  - reflexivity.
  - apply NoDup_cons_iff in Hnd as [Hnotin Hnd].
    rewrite IH by assumption.
    destruct (String.eqb k1 k) eqn:E; simpl.
    + apply String.eqb_eq in E. subst k1.
      destruct (has k source) eqn:Hhas.
      * now apply has_in in Hhas.
      * apply get_set_same.
    + destruct (has k source); [reflexivity|].
      apply get_set_other. apply String.eqb_neq in E. congruence.
Qed.

End ObjectFacts.

(* ================================================================= *)
(** ** Configuration *)

Section Configured.

Variable platform : string.
Variable st : session.
Variable config : resolved_config.
Variable p : plugin.
Variable a : plugin_api.
Variable so : svelte_options.

Hypothesis found :
  find (fun q => String.eqb (name q) "vite-plugin-svelte") (plugins config)
  = Some p.
Hypothesis has_api : api p = Some a.
Hypothesis has_options : options a = Some so.

Let setting : option inspector_setting := inspector_setting_of (Some p).

(** With the companion plugin and a truthy setting, the session gets the
    merged options and is not disabled by this call. *)
Lemma configResolved_configured :
  setting_truthy setting = true ->
  configResolved platform st config
  = Normal
      {| inspectorOptions :=
           Some (with_kit_appendTo so (merge_options platform setting));
         appendTo :=
           JsObject.get "appendTo"
             (with_kit_appendTo so (merge_options platform setting));
         disabled := disabled st |}.
Proof.
  intros H. unfold configResolved. rewrite found. fold setting.
  now rewrite H, has_api, has_options.
Qed.

Lemma setting_of_found :
  setting = match experimental so with
            | Some e => nvim_inspector e
            | None => None
            end.
Proof.
  unfold setting, inspector_setting_of, svelte_options_of.
  now rewrite has_api, has_options.
Qed.

End Configured.

(** The assignment of the kit default touches no other property. *)
Lemma with_kit_appendTo_other (so : svelte_options) (o : object) (k : string) :
  k <> "appendTo" ->
  JsObject.get k (with_kit_appendTo so o) = JsObject.get k o.
Proof.
  intros Hk. unfold with_kit_appendTo.
  destruct (kit so) as [kc|]; [|reflexivity].
  destruct (negb _); [|reflexivity].
  now apply get_set_other.
Qed.

(** C10.  The merge is shallow.  When the options record of the user has a
    [navKeys] object, the [navKeys] of the merged options is that object:
    a direction it leaves out is left out of the merged options too, the
    default of that direction is not kept. *)
Theorem merge_is_shallow
  (platform : string) (st : session) (config : resolved_config)
  (p : plugin) (a : plugin_api) (so : svelte_options)
  (e : experimental_options) (user nav : object) :
  find (fun q => String.eqb (name q) "vite-plugin-svelte") (plugins config)
  = Some p ->
  api p = Some a ->
  options a = Some so ->
  experimental so = Some e ->
  nvim_inspector e = Some (SettingOptions user) ->
  well_formed (VObject user) = true ->
  JsObject.get "navKeys" user = VObject nav ->
  exists st' merged,
    configResolved platform st config = Normal st'
    /\ inspectorOptions st' = Some merged
    /\ JsObject.get "navKeys" merged = VObject nav
    /\ (forall direction,
          JsObject.get direction nav = VUndefined ->
          get_path ["navKeys"; direction] (VObject merged) = VUndefined).
Proof.
  intros Hfind Hapi Hopt Hexp Hset Hwf Hnav.
  pose proof (setting_of_found p a so Hapi Hopt) as Hsetting.
  cbv zeta in Hsetting. rewrite Hexp, Hset in Hsetting.
  assert (Htruthy : setting_truthy (inspector_setting_of (Some p)) = true)
    by now rewrite Hsetting.
  rewrite (configResolved_configured platform st config p a so Hfind Hapi Hopt
             Htruthy).
  do 2 eexists. split; [reflexivity|]. split; [reflexivity|].
  assert (Hmerged :
            JsObject.get "navKeys"
              (with_kit_appendTo so
                 (merge_options platform (inspector_setting_of (Some p))))
            = VObject nav).
  { rewrite with_kit_appendTo_other by discriminate.
    rewrite Hsetting. unfold merge_options. simpl spread_source.
    rewrite get_assign.
    - destruct (JsObject.has "navKeys" user) eqn:Hhas; [exact Hnav|].
      rewrite (get_absent _ _ Hhas) in Hnav. discriminate Hnav.
    - simpl in Hwf. apply andb_true_iff in Hwf as [Hkeys _].
      apply andb_true_iff in Hkeys as [Hnd _].
      now apply nodup_keys_NoDup. }
  split; [exact Hmerged|].
  intros direction Hdir. cbn [get_path]. now rewrite Hmerged.
Qed.

Lemma merge_is_shallow_witness :
  exists st' merged,
    configResolved "linux" initial_session Sample.nav_config = Normal st'
    /\ inspectorOptions st' = Some merged
    /\ JsObject.get "navKeys" merged = VObject [("parent", VString "w")]
    /\ (forall direction,
          JsObject.get direction [("parent", VString "w")] = VUndefined ->
          get_path ["navKeys"; direction] (VObject merged) = VUndefined).
Proof.
  apply (merge_is_shallow "linux" initial_session Sample.nav_config
           (Sample.companion Sample.nav_options)
           {| options := Some Sample.nav_options |}
           Sample.nav_options
           {| nvim_inspector := Some (SettingOptions Sample.nav_user_options) |}
           Sample.nav_user_options [("parent", VString "w")]);
    reflexivity.
Defined.

(** The default of a direction the user left out is gone. *)
Example merge_drops_default_child :
  get_path ["navKeys"; "child"]
    (VObject (merge_options "linux"
                (Some (SettingOptions
                         [("navKeys", VObject [("parent", VString "w")])]))))
  = VUndefined
  /\ get_path ["navKeys"; "child"]
       (VObject (defaultInspectorOptions "linux"))
     = VString "ArrowDown".
Proof. split; reflexivity. Qed.

(* ================================================================= *)
(** ** Writing and reading JSON *)

(** Induction on values, the properties of an object included. *)
Lemma value_nested_ind (P : value -> Prop) :
  P VUndefined ->
  (forall b, P (VBool b)) ->
  (forall s, P (VString s)) ->
  (forall props, Forall (fun kv => P (snd kv)) props -> P (VObject props)) ->
  forall v, P v.
Proof.
  intros Hundef Hbool Hstring Hobject.
  fix IH 1. intros [ | b | s | props].
  - exact Hundef.
  - apply Hbool.
  - apply Hstring.
  - apply Hobject.
    induction props as [|kv props IHprops]; constructor.
    + apply IH.
    + exact IHprops.
Qed.

Section JsonText.

Import Json.

(** A quoted string is read back as the string. *)
Lemma parse_chars_quote_body (s rest : string) :
  parse_chars (quote_body s ++ String dquote rest) = Some (s, rest).
Proof.
  change dquote with "034"%char.
  induction s as [|c s IH].
  - reflexivity.
  - cbn [quote_body]. rewrite append_assoc.
    destruct c as [[] [] [] [] [] [] [] []];
      cbn -[parse_chars quote_body];
      cbn [parse_chars]; cbn -[parse_chars quote_body];
      rewrite IH; reflexivity.
Qed.

Lemma parse_string_quote (s rest : string) :
  parse_string (quoteJSONString s ++ rest) = Some (s, rest).
Proof.
  unfold quoteJSONString. cbn [append parse_string].
  rewrite Ascii.eqb_refl, append_assoc. apply parse_chars_quote_body.
Qed.

End JsonText.

(* ================================================================= *)
(** ** Well-formed objects *)

Section WellFormedKeys.

Import JsObject.

Lemma ordered_from_weaken (ks : list string) (lo lo' : option N) :
  bound_le lo lo' -> ordered_from lo' ks = true -> ordered_from lo ks = true.
Proof.
  revert lo lo'. induction ks as [|k ks IH]; intros lo lo' Hle H.
  - reflexivity.
  - cbn [ordered_from] in *.
    destruct (array_index k) as [n|].
    + destruct lo' as [n'|]; [|discriminate].
      destruct lo as [m|]; [|contradiction]. simpl in Hle.
      apply andb_true_iff in H as [H1 H2]. apply N.leb_le in H1.
      apply andb_true_iff. split; [apply N.leb_le; lia | exact H2].
    + exact H.
Qed.

Lemma ordered_from_tail (k : string) (ks : list string) (lo : option N) :
  ordered_from lo (k :: ks) = true -> ordered_from lo ks = true.
Proof.
  cbn [ordered_from]. destruct (array_index k) as [n|].
  - destruct lo as [m|]; [|discriminate]. intros H.
    apply andb_true_iff in H as [H1 H2]. apply N.leb_le in H1.
    now apply (ordered_from_weaken ks (Some m) (Some n)).
  - intros H. apply (ordered_from_weaken ks lo None); [|exact H].
    now destruct lo.
Qed.

Lemma ordered_from_filter
  (f : string * value -> bool) (o : object) (lo : option N) :
  ordered_from lo (keys o) = true ->
  ordered_from lo (keys (filter f o)) = true.
Proof.
  revert lo. induction o as [|kv o IH]; intros lo H; [reflexivity|].
  simpl filter. destruct (f kv).
  - simpl in *. destruct (array_index (fst kv)) as [n|].
    + destruct lo as [m|]; [|discriminate].
      apply andb_true_iff in H as [H1 H2]. rewrite H1. now apply IH.
    + now apply IH.
  - apply IH. now apply ordered_from_tail in H.
Qed.

Lemma NoDup_keys_filter (f : string * value -> bool) (o : object) :
  NoDup (keys o) -> NoDup (keys (filter f o)).
Proof.
  induction o as [|kv o IH]; intros H; [constructor|].
  simpl in *. apply NoDup_cons_iff in H as [Hnotin Hnd].
  destruct (f kv); [|now apply IH].
  simpl. constructor; [|now apply IH].
  intros Hin. apply Hnotin. unfold keys in *.
  apply in_map_iff in Hin as (x & Hx & Hin).
  apply filter_In in Hin as [Hin _].
  apply in_map_iff. now exists x.
Qed.

Lemma well_formed_keys_filter (f : string * value -> bool) (o : object) :
  well_formed_keys (keys o) = true ->
  well_formed_keys (keys (filter f o)) = true.
Proof.
  unfold well_formed_keys. intros H.
  apply andb_true_iff in H as [Hnd Hord]. apply andb_true_iff. split.
  - apply nodup_keys_NoDup, NoDup_keys_filter. now apply nodup_keys_NoDup.
  - now apply ordered_from_filter.
Qed.

(** In a list ordered from a number, an array index is not below it. *)
Lemma ordered_from_last_index
  (ks : list string) (k : string) (m n : N) :
  ordered_from (Some m) (ks ++ [k])%list = true ->
  array_index k = Some n ->
  (m <= n)%N.
Proof.
  revert m. induction ks as [|k' ks IH]; intros m H Hk.
  - cbn in H. rewrite Hk in H.
    apply andb_true_iff in H as [H _]. now apply N.leb_le.
  - cbn [app ordered_from] in H. destruct (array_index k') as [m'|].
    + apply andb_true_iff in H as [H1 H2]. apply N.leb_le in H1.
      specialize (IH m' H2 Hk). lia.
    + exfalso. clear IH. induction ks as [|k'' ks IH].
      * cbn in H. now rewrite Hk in H.
      * apply IH. now apply ordered_from_tail in H.
Qed.

Lemma insert_index_last (n : N) (k : string) (v : value) (o : object) (m : N) :
  array_index k = Some n ->
  ordered_from (Some m) (keys o ++ [k])%list = true ->
  insert_index n k v o = (o ++ [(k, v)])%list.
Proof.
  intros Hk. revert m. induction o as [|[k' v'] o IH]; intros m H.
  - reflexivity.
  - cbn [keys map fst app ordered_from] in H. cbn [insert_index].
    destruct (array_index k') as [m'|].
    + apply andb_true_iff in H as [H1 H2].
      pose proof (ordered_from_last_index _ _ _ _ H2 Hk) as Hle.
      apply N.leb_le in Hle. rewrite Hle. simpl. f_equal.
      now apply (IH m').
    + exfalso. clear IH.
      change (map fst o) with (keys o) in H.
      induction (keys o) as [|k'' ks IH].
      * cbn in H. now rewrite Hk in H.
      * apply IH. now apply ordered_from_tail in H.
Qed.

(** Writing the next key of a well-formed list of keys puts it last. *)
Lemma set_next_key (k : string) (v : value) (o : object) :
  well_formed_keys (keys o ++ [k])%list = true ->
  set k v o = (o ++ [(k, v)])%list.
Proof.
  unfold well_formed_keys. intros H.
  apply andb_true_iff in H as [Hnd Hord].
  apply nodup_keys_NoDup in Hnd.
  assert (Hhas : has k o = false).
  { apply not_true_iff_false. intros Hin. apply has_in in Hin.
    apply NoDup_remove_2 in Hnd. apply Hnd. rewrite app_nil_r. exact Hin. }
  unfold set. rewrite Hhas. destruct (array_index k) as [n|] eqn:Hk.
  - now apply (insert_index_last n k v o 0%N).
  - reflexivity.
Qed.

Lemma well_formed_keys_prefix (ks ks' : list string) :
  well_formed_keys (ks ++ ks')%list = true -> well_formed_keys ks = true.
Proof.
  unfold well_formed_keys. intros H.
  apply andb_true_iff in H as [Hnd Hord]. apply andb_true_iff. split.
  - apply nodup_keys_NoDup. apply nodup_keys_NoDup in Hnd.
    now apply NoDup_app_remove_r in Hnd.
  - clear Hnd. revert Hord. generalize (Some 0%N).
    induction ks as [|k ks IH]; intros lo H; [reflexivity|].
    cbn [app ordered_from] in *. destruct (array_index k) as [n|].
    + destruct lo as [m|]; [|discriminate].
      apply andb_true_iff in H as [H1 H2]. rewrite H1. now apply IH.
    + now apply IH.
Qed.

(** Writing the properties of a well-formed object one after the other, as a
    reader of its text does, builds the object again. *)
Lemma fold_set_rebuilds (f : value -> value) (d acc : object) :
  well_formed_keys (keys acc ++ keys d)%list = true ->
  fold_left (fun a kv => set (fst kv) (f (snd kv)) a) d acc
  = (acc ++ map (fun kv => (fst kv, f (snd kv))) d)%list.
Proof.
  revert acc. induction d as [|[k v] d IH]; intros acc H.
  - simpl. now rewrite app_nil_r.
  - cbn [fold_left map fst snd].
    assert (Hk : well_formed_keys (keys acc ++ [k])%list = true).
    { apply (well_formed_keys_prefix _ (keys d)).
      now rewrite <- app_assoc. }
    rewrite (set_next_key k (f v) acc Hk).
    rewrite IH.
    + now rewrite <- app_assoc.
    + unfold keys in *. rewrite map_app. cbn [map fst].
      now rewrite <- app_assoc.
Qed.

End WellFormedKeys.

(* ================================================================= *)
(** ** The round trip of a value through its JSON text *)

Section RoundTrip.

Import Json.

Lemma serialize_defined (v : value) :
  is_defined v = true -> exists t, serializeJSONProperty v = Some t.
Proof.
  destruct v as [ | [] | s | props]; intros H; try discriminate;
    eexists; reflexivity.
Qed.

Lemma serialize_undefined (v : value) :
  is_defined v = false -> serializeJSONProperty v = None.
Proof. destruct v; intros H; try discriminate; reflexivity. Qed.

Lemma skip_ws_head (c : ascii) (s : string) :
  is_ws c = false -> skip_ws (String c s) = String c s.
Proof. intros H. cbn [skip_ws]. now rewrite H. Qed.

Lemma drop_append (a b : string) : drop (String.length a) (a ++ b) = b.
Proof.
  unfold drop. rewrite length_append.
  replace (String.length a + String.length b - String.length a)%nat
    with (String.length b) by lia.
  apply substring_tail.
Qed.

(** The text of a value starts with a character that is not white space. *)
Lemma serialize_head (v : value) (t rest : string) :
  serializeJSONProperty v = Some t ->
  skip_ws (t ++ rest) = t ++ rest.
Proof.
  destruct v as [ | [] | s | props]; intros [= <-]; reflexivity.
Qed.

Lemma serialize_object (props : object) :
  serializeJSONProperty (VObject props)
  = Some ("{" ++ String.concat ","
            (flat_map
               (fun kv =>
                  match serializeJSONProperty (snd kv) with
                  | Some t => [quoteJSONString (fst kv) ++ ":" ++ t]
                  | None => []
                  end) props) ++ "}").
Proof. reflexivity. Qed.

(** The members an object is written with are those of its defined
    properties. *)
Lemma serialize_members (props : object) :
  flat_map
    (fun kv =>
       match serializeJSONProperty (snd kv) with
       | Some t => [quoteJSONString (fst kv) ++ ":" ++ t]
       | None => []
       end) props
  = map (fun kv =>
           quoteJSONString (fst kv) ++ ":"
             ++ match serializeJSONProperty (snd kv) with
                | Some t => t
                | None => ""
                end)
        (filter (fun kv => is_defined (snd kv)) props).
Proof.
  induction props as [|[k v] props IH]; [reflexivity|].
  cbn [flat_map filter fst snd]. rewrite IH.
  destruct (is_defined v) eqn:E.
  - destruct (serialize_defined v E) as [t Ht].
    cbn [map fst snd]. now rewrite Ht.
  - now rewrite (serialize_undefined v E).
Qed.

Lemma prune_properties (props : object) :
  prune (VObject props)
  = VObject (map (fun kv => (fst kv, prune (snd kv)))
               (filter (fun kv => is_defined (snd kv)) props)).
Proof.
  cbn [prune]. f_equal.
  induction props as [|[k v] props IH]; [reflexivity|].
  cbn [flat_map filter fst snd]. rewrite IH.
  now destruct (is_defined v).
Qed.

(** Reading the members of an object: [d] are the properties still to read,
    each with a value that [read] reads back from its text. *)
Lemma parse_members_serialized
  (read : string -> option (value * string)) (d : object) :
  Forall (fun kv =>
            exists t, serializeJSONProperty (snd kv) = Some t
                      /\ forall r, read (t ++ r) = Some (prune (snd kv), r)) d ->
  d <> [] ->
  forall (n : nat) (acc : object) (rest : string),
    (List.length d <= n)%nat ->
    parse_members read n acc
      (String.concat ","
         (map (fun kv =>
                 quoteJSONString (fst kv) ++ ":"
                   ++ match serializeJSONProperty (snd kv) with
                      | Some t => t
                      | None => ""
                      end) d)
         ++ "}" ++ rest)
    = Some (VObject
              (fold_left
                 (fun a kv => JsObject.set (fst kv) (prune (snd kv)) a) d acc),
            rest).
Proof.
  set (text := fun kv : string * value =>
                 quoteJSONString (fst kv) ++ ":"
                   ++ match serializeJSONProperty (snd kv) with
                      | Some t => t
                      | None => ""
                      end).
  induction d as [|[k v] d IH]; intros Hall Hne n acc rest Hn;
    [contradiction|].
  apply Forall_cons_iff in Hall as [(t & Ht & Hread) Hall].
  cbn [fst snd] in Ht, Hread.
  destruct n as [|n]; [simpl in Hn; lia|].
  assert (Htext : text (k, v) = quoteJSONString k ++ ":" ++ t)
    by (unfold text; cbn [fst snd]; now rewrite Ht).
  cbn [map fold_left fst snd]. rewrite Htext.
  destruct d as [|kv' d].
  - cbn [map String.concat fold_left].
    rewrite !append_assoc. cbn [parse_members].
    rewrite parse_string_quote. cbn [append skip_ws is_ws].
    cbn -[skip_ws parse_members]. rewrite (serialize_head v t _ Ht), Hread.
    reflexivity.
  - rewrite concat_cons by discriminate.
    rewrite !append_assoc. cbn [parse_members].
    rewrite parse_string_quote. cbn [append skip_ws is_ws].
    cbn -[skip_ws parse_members String.concat map].
    rewrite (serialize_head v t _ Ht), Hread.
    cbn -[skip_ws parse_members String.concat map fold_left].
    rewrite (skip_ws_head ","%char) by reflexivity.
    cbn -[skip_ws parse_members String.concat map fold_left].
    assert (Hskip : forall x,
               skip_ws (String.concat "," (map text (kv' :: d)) ++ x)
               = String.concat "," (map text (kv' :: d)) ++ x).
    { intros x. cbn [map]. unfold text at 1, quoteJSONString.
      destruct (map text d); reflexivity. }
    rewrite Hskip. apply IH; [exact Hall | discriminate | simpl in *; lia].
Qed.

Lemma size_defined (v : value) : is_defined v = true -> (1 <= size v)%nat.
Proof. destruct v; intros H; try discriminate; simpl; lia. Qed.

Lemma size_of_property (kv : string * value) (props : object) :
  In kv props ->
  (size (snd kv) <= list_sum (map (fun kv => size (snd kv)) props))%nat.
Proof.
  induction props as [|kv' props IH]; intros H; [contradiction|].
  destruct H as [H|H]; simpl.
  - subst. lia.
  - specialize (IH H). lia.
Qed.

Lemma count_defined_le_size (props : object) :
  (List.length (filter (fun kv => is_defined (snd kv)) props)
   <= list_sum (map (fun kv => size (snd kv)) props))%nat.
Proof.
  induction props as [|[k v] props IH]; simpl; [lia|].
  destruct (is_defined v) eqn:E; simpl.
  - pose proof (size_defined v E). lia.
  - lia.
Qed.

Lemma well_formed_object (props : object) :
  well_formed (VObject props) = true ->
  JsObject.well_formed_keys (JsObject.keys props) = true
  /\ forall kv, In kv props -> well_formed (snd kv) = true.
Proof.
  cbn [well_formed]. intros H. apply andb_true_iff in H as [Hk Hv].
  split; [exact Hk|]. now apply forallb_forall.
Qed.

(** The reader gives back what the text of a well-formed value keeps of the
    value, and stops where that text ends. *)
Lemma parse_value_serialized (v : value) :
  well_formed v = true ->
  forall t, serializeJSONProperty v = Some t ->
  forall fuel rest, (size v <= fuel)%nat ->
  parse_value fuel (t ++ rest) = Some (prune v, rest).
Proof.
  induction v as [ | b | s | props IH] using value_nested_ind;
    intros Hwf t Ht fuel rest Hfuel.
  - discriminate Ht.
  - destruct fuel as [|fuel]; [simpl in Hfuel; lia|].
    destruct b; injection Ht as <-; destruct rest; cbn -[drop];
      do 2 f_equal;
      first [ exact (drop_append "true" "")
            | exact (drop_append "true" (String _ _))
            | exact (drop_append "false" "")
            | exact (drop_append "false" (String _ _)) ].
  - destruct fuel as [|fuel]; [simpl in Hfuel; lia|].
    injection Ht as <-. unfold quoteJSONString.
    cbn [append]. rewrite append_assoc. cbn [append parse_value].
    rewrite Ascii.eqb_refl. now rewrite parse_chars_quote_body.
  - destruct fuel as [|fuel]; [simpl in Hfuel; lia|].
    cbn [size] in Hfuel. apply le_S_n in Hfuel.
    cbn [serializeJSONProperty] in Ht. injection Ht as <-.
    rewrite serialize_members, prune_properties.
    destruct (well_formed_object props Hwf) as [Hkeys Hvalues].
    set (text := fun kv : string * value =>
                   quoteJSONString (fst kv) ++ ":"
                     ++ match serializeJSONProperty (snd kv) with
                        | Some t => t
                        | None => ""
                        end).
    pose proof (count_defined_le_size props) as Hcount.
    assert (Hd : JsObject.well_formed_keys
                   (JsObject.keys
                      (filter (fun kv => is_defined (snd kv)) props)) = true)
      by now apply well_formed_keys_filter.
    assert (Hread :
              Forall
                (fun kv =>
                   exists t, serializeJSONProperty (snd kv) = Some t
                             /\ forall r, parse_value fuel (t ++ r)
                                          = Some (prune (snd kv), r))
                (filter (fun kv => is_defined (snd kv)) props)).
    { rewrite Forall_forall in IH |- *. intros kv Hin.
      apply filter_In in Hin as [Hin Hdef].
      destruct (serialize_defined _ Hdef) as [t Ht]. exists t.
      split; [exact Ht|]. intros r.
      apply (IH kv Hin (Hvalues kv Hin) t Ht).
      pose proof (size_of_property kv props Hin). lia. }
    revert Hcount Hd Hread.
    generalize (filter (fun kv => is_defined (snd kv)) props).
    intros d Hcount Hd Hread.
    change ("{" ++ ?x) with (String "{" x). cbn [append].
    rewrite append_assoc. cbn [parse_value].
    change (Ascii.eqb "{" dquote) with false.
    change (Ascii.eqb "{" "{") with true. cbv iota.
    destruct d as [|kv d].
    + reflexivity.
    + assert (Hhead : exists x,
                 String.concat "," (map text (kv :: d)) ++ "}" ++ rest
                 = String "034" x).
      { cbn [map]. unfold text at 1, quoteJSONString.
        destruct (map text d); eexists; reflexivity. }
      destruct Hhead as [x Hx]. rewrite Hx.
      rewrite skip_ws_head by reflexivity. cbv iota. rewrite <- Hx.
      rewrite (parse_members_serialized (parse_value fuel) (kv :: d) Hread)
        by (discriminate || lia).
      now rewrite (fold_set_rebuilds prune (kv :: d) []).
Qed.

End RoundTrip.

Section ParseStringify.

Import Json.

Lemma length_concat (sep : string) (l : list string) :
  (list_sum (map String.length l) <= String.length (String.concat sep l))%nat.
Proof.
  induction l as [|x l IH]; [simpl; lia|].
  destruct l as [|y l].
  - simpl. lia.
  - rewrite concat_cons by discriminate.
    rewrite !length_append. cbn [map list_sum fold_right] in *. lia.
Qed.

(** The text of a value is long enough to be the fuel of its reading. *)
Lemma size_le_length (v : value) :
  forall t, serializeJSONProperty v = Some t -> (size v <= String.length t)%nat.
Proof.
  induction v as [ | b | s | props IH] using value_nested_ind; intros t Ht.
  - discriminate Ht.
  - destruct b; injection Ht as <-; simpl; lia.
  - injection Ht as <-. simpl. lia.
  - rewrite serialize_object in Ht. injection Ht as <-.
    cbn [String.length append size]. rewrite ?length_append.
    cbn [String.length].
    match goal with
    | |- context [String.concat "," ?l] =>
        pose proof (length_concat "," l) as Hlen;
        assert (Hsum : (list_sum (map (fun kv => size (snd kv)) props)
                        <= list_sum (map String.length l))%nat)
    end.
    { clear Hlen. induction props as [|[k v] props IHprops]; [simpl; lia|].
      apply Forall_cons_iff in IH as [Hv IH]. specialize (IHprops IH).
      cbn [flat_map map fst snd]. rewrite list_sum_cons.
      destruct (serializeJSONProperty v) as [t|] eqn:Ht.
      - specialize (Hv t Ht). cbn [snd] in Hv.
        rewrite map_app, list_sum_app.
        cbn [map]. rewrite list_sum_cons.
        cbn [String.length append list_sum fold_right].
        rewrite ?length_append. cbn [String.length].
        rewrite ?length_append. cbn [String.length]. lia.
      - destruct v; try discriminate Ht; try (now destruct b).
        simpl. lia. }
    lia.
Qed.

(** [JSON.parse(JSON.stringify(v))] is what the text keeps of [v]. *)
Lemma parse_stringify (v : value) (t : string) :
  well_formed v = true ->
  stringify v = Some t ->
  parse t = Some (prune v).
Proof.
  intros Hwf Ht. unfold stringify in Ht. unfold parse.
  pose proof (serialize_head v t "" Ht) as Hskip.
  rewrite append_nil_r in Hskip. rewrite Hskip.
  pose proof (parse_value_serialized v Hwf t Ht (S (String.length t)) "")
    as Hparse.
  rewrite append_nil_r in Hparse. rewrite Hparse.
  - reflexivity.
  - pose proof (size_le_length v t Ht). lia.
Qed.

End ParseStringify.

(* ================================================================= *)
(** ** What reading shows of a value and of its JSON text *)

Section Observation.

Import JsObject.

Lemma get_pruned (k : string) (props : object) :
  NoDup (keys props) ->
  get k (map (fun kv => (fst kv, prune (snd kv)))
           (filter (fun kv => is_defined (snd kv)) props))
  = prune (get k props).
Proof.
  induction props as [|[k' v'] props IH]; intros Hnd; [reflexivity|].
  cbn [keys map fst] in Hnd. apply NoDup_cons_iff in Hnd as [Hnotin Hnd].
  cbn [filter get fst snd].
  destruct (String.eqb k' k) eqn:E.
  - apply String.eqb_eq in E. subst k'.
    destruct (is_defined v') eqn:Hdef.
    + cbn [map get fst snd]. now rewrite String.eqb_refl.
    + destruct v'; try discriminate Hdef. cbn [prune].
      apply get_absent. apply not_true_iff_false. intros Hhas.
      apply has_in in Hhas. apply Hnotin. unfold keys in *.
      apply in_map_iff in Hhas as (x & Hx & Hin).
      apply in_map_iff in Hin as (y & <- & Hin).
      apply filter_In in Hin as [Hin _].
      apply in_map_iff. exists y. now split.
  - destruct (is_defined v').
    + cbn [map get fst snd]. rewrite E. now apply IH.
    + now apply IH.
Qed.

Lemma well_formed_get (k : string) (props : object) :
  well_formed (VObject props) = true -> well_formed (get k props) = true.
Proof.
  intros H. destruct (well_formed_object props H) as [_ Hv].
  clear H. induction props as [|[k' v'] props IH]; [reflexivity|].
  cbn [get]. destruct (String.eqb k' k).
  - apply (Hv (k', v')). now left.
  - apply IH. intros kv Hin. apply Hv. now right.
Qed.

(** Every chain of reads shows the same on a well-formed value and on what
    its JSON text keeps of it. *)
Lemma observe_pruned (path : list string) (v : value) :
  well_formed v = true ->
  observe (get_path path (prune v)) = observe (get_path path v).
Proof.
  revert v. induction path as [|k path IH]; intros v Hwf.
  - now destruct v.
  - destruct v as [ | b | s | props]; try reflexivity.
    rewrite prune_properties. cbn [get_path].
    destruct (well_formed_object props Hwf) as [Hkeys _].
    unfold well_formed_keys in Hkeys.
    apply andb_true_iff in Hkeys as [Hnd _].
    apply nodup_keys_NoDup in Hnd.
    rewrite get_pruned by assumption.
    apply IH. now apply well_formed_get.
Qed.

End Observation.

(* ================================================================= *)
(** ** The merged options are a well-formed object *)

Section WellFormedOptions.

Import JsObject.

Lemma keys_overwrite (k : string) (v : value) (o : object) :
  keys (overwrite k v o) = keys o.
Proof.
  unfold keys. induction o as [|[k' v'] o IH]; [reflexivity|].
  cbn [overwrite]. destruct (String.eqb k' k); cbn [map fst];
    [reflexivity | now rewrite IH].
Qed.

Lemma keys_insert_index (n : N) (k : string) (v : value) (o : object) :
  Add k (keys o) (keys (insert_index n k v o)).
Proof.
  induction o as [|[k' v'] o IH]; cbn [insert_index keys map fst].
  - constructor.
  - destruct (array_index k') as [m|]; [destruct (m <=? n)%N|];
      cbn [map fst]; constructor. exact IH.
Qed.

Lemma ordered_from_insert_index
  (n m : N) (k : string) (v : value) (o : object) :
  array_index k = Some n ->
  (m <= n)%N ->
  ordered_from (Some m) (keys o) = true ->
  ordered_from (Some m) (keys (insert_index n k v o)) = true.
Proof.
  intros Hk. revert m. induction o as [|[k' v'] o IH]; intros m Hm H.
  - cbn. rewrite Hk. apply andb_true_iff. split; [now apply N.leb_le|reflexivity].
  - cbn [keys map fst ordered_from] in H. cbn [insert_index].
    destruct (array_index k') as [m'|] eqn:Hk'.
    + apply andb_true_iff in H as [H1 H2].
      destruct (m' <=? n)%N eqn:Hle.
      * cbn [keys map fst ordered_from]. rewrite Hk', H1.
        apply IH; [now apply N.leb_le | exact H2].
      * cbn [keys map fst ordered_from]. rewrite Hk, Hk'.
        apply N.leb_gt in Hle.
        repeat (apply andb_true_iff; split); try exact H2;
          apply N.leb_le; lia.
    + cbn [keys map fst ordered_from]. rewrite Hk, Hk'.
      apply andb_true_iff. split; [now apply N.leb_le | exact H].
Qed.

Lemma ordered_from_append_name (k : string) (ks : list string) (lo : option N) :
  array_index k = None ->
  ordered_from lo ks = true ->
  ordered_from lo (ks ++ [k])%list = true.
Proof.
  intros Hk. revert lo. induction ks as [|k' ks IH]; intros lo H.
  - cbn. now rewrite Hk.
  - cbn [app ordered_from] in *. destruct (array_index k') as [m'|].
    + destruct lo as [m|]; [|discriminate].
      apply andb_true_iff in H as [H1 H2]. rewrite H1. now apply IH.
    + now apply IH.
Qed.

Lemma well_formed_keys_set (k : string) (v : value) (o : object) :
  well_formed_keys (keys o) = true ->
  well_formed_keys (keys (set k v o)) = true.
Proof.
  unfold well_formed_keys, set. intros H.
  apply andb_true_iff in H as [Hnd Hord].
  destruct (has k o) eqn:Hhas.
  - rewrite keys_overwrite. now rewrite Hnd, Hord.
  - assert (Hnotin : ~ In k (keys o)).
    { intros Hin. apply has_in in Hin. congruence. }
    apply nodup_keys_NoDup in Hnd.
    destruct (array_index k) as [n|] eqn:Hk; apply andb_true_iff; split.
    + apply nodup_keys_NoDup.
      apply (NoDup_Add (keys_insert_index n k v o)). now split.
    + apply ordered_from_insert_index; [exact Hk | lia | exact Hord].
    + apply nodup_keys_NoDup. unfold keys. rewrite map_app. cbn [map fst].
      apply (NoDup_Add (Add_app k (map fst o) [])).
      rewrite app_nil_r. now split.
    + unfold keys. rewrite map_app. cbn [map fst].
      now apply ordered_from_append_name.
Qed.

Lemma in_set (k : string) (v : value) (o : object) (kv : string * value) :
  In kv (set k v o) -> snd kv = v \/ In kv o.
Proof.
  unfold set. destruct (has k o).
  - induction o as [|[k' v'] o IH]; [now right|].
    cbn [overwrite]. destruct (String.eqb k' k).
    + intros [<-|H]; [now left | right; now right].
    + intros [<-|H]; [right; now left|].
      destruct (IH H) as [E|Hin]; [now left | right; now right].
  - destruct (array_index k) as [n|].
    + induction o as [|[k' v'] o IH]; cbn [insert_index].
      * intros [<-|[]]. now left.
      * destruct (array_index k') as [m|]; [destruct (m <=? n)%N|].
        -- intros [<-|H]; [right; now left|].
           destruct (IH H) as [E|Hin]; [now left | right; now right].
        -- intros [<-|H]; [now left | now right].
        -- intros [<-|H]; [now left | now right].
    + intros H. apply in_app_or in H as [H|[<-|[]]]; [now right | now left].
Qed.

Lemma well_formed_set (k : string) (v : value) (o : object) :
  well_formed (VObject o) = true ->
  well_formed v = true ->
  well_formed (VObject (set k v o)) = true.
Proof.
  intros Ho Hv. destruct (well_formed_object o Ho) as [Hkeys Hvalues].
  cbn [well_formed]. apply andb_true_iff. split.
  - now apply well_formed_keys_set.
  - apply forallb_forall. intros kv Hin.
    destruct (in_set k v o kv Hin) as [->|Hin']; [exact Hv|].
    now apply Hvalues.
Qed.

Lemma well_formed_assign (target source : object) :
  well_formed (VObject target) = true ->
  (forall kv, In kv source -> well_formed (snd kv) = true) ->
  well_formed (VObject (assign target source)) = true.
Proof.
  unfold assign. revert target.
  induction source as [|kv source IH]; intros target Ht Hs; [exact Ht|].
  cbn [fold_left]. apply IH.
  - apply well_formed_set; [exact Ht | apply Hs; now left].
  - intros kv' Hin. apply Hs. now right.
Qed.

Lemma well_formed_merge_options
  (platform : string) (s : option inspector_setting) :
  setting_well_formed s = true ->
  well_formed (VObject (merge_options platform s)) = true.
Proof.
  intros Hs. unfold merge_options.
  destruct (well_formed_object _ Hs) as [_ Hvalues].
  apply well_formed_assign; [|exact Hvalues].
  unfold defaultInspectorOptions.
  destruct (String.eqb platform "win32"); reflexivity.
Qed.

Lemma well_formed_with_kit_appendTo (so : svelte_options) (o : object) :
  well_formed (VObject o) = true ->
  well_formed (VObject (with_kit_appendTo so o)) = true.
Proof.
  intros H. unfold with_kit_appendTo.
  destruct (kit so) as [k|]; [|exact H].
  destruct (negb _); [|exact H].
  now apply well_formed_set.
Qed.

End WellFormedOptions.

(* ================================================================= *)
(** ** Loading the options *)

(** A session that [configResolved] leaves enabled holds the merged options
    with the default of the kit. *)
Lemma configResolved_enabled
  (platform : string) (config : resolved_config) (st : session) :
  configResolved platform initial_session config = Normal st ->
  disabled st = false ->
  exists so,
    inspectorOptions st
    = Some (with_kit_appendTo so
              (merge_options platform
                 (inspector_setting_of
                    (find (fun q => String.eqb (name q) "vite-plugin-svelte")
                          (plugins config))))).
Proof.
  unfold configResolved.
  destruct (find _ _) as [p|].
  - destruct (setting_truthy _).
    + destruct (api p) as [a|]; [|discriminate].
      destruct (options a) as [so|]; [|discriminate].
      intros [= <-] _. now exists so.
    + cbn [inspectorOptions initial_session].
      intros [= <-]. discriminate.
  - destruct (if setting_truthy _ then _ else _);
      intros [= <-]; discriminate.
Qed.

(** C4, as the code has it.  In a session that [configResolved] configured
    and left enabled,
    [load] of the options id outside server rendering returns
    [export default] followed by a JSON text; [JSON.parse] reads that text,
    and every chain of property reads shows the same on the value read as on
    the merged options.  The value read is the merged options without the
    properties that are [undefined], which a JSON text cannot hold. *)
Theorem load_options_round_trip
  (idToFile : string -> string) (fs : NodeFs.file_system)
  (platform pluginPath : string) (config : resolved_config)
  (st : session) (o : option hook_options) :
  setting_well_formed
    (inspector_setting_of
       (find (fun q => String.eqb (name q) "vite-plugin-svelte")
             (plugins config))) = true ->
  configResolved platform initial_session config = Normal st ->
  disabled st = false ->
  is_ssr o = false ->
  exists merged json parsed,
    inspectorOptions st = Some merged
    /\ load idToFile fs pluginPath st options_id o
       = Normal (Some ("export default " ++ json))
    /\ Json.parse json = Some parsed
    /\ parsed = prune (VObject merged)
    /\ forall path,
         observe (get_path path parsed)
         = observe (get_path path (VObject merged)).
Proof.
  intros Hwf Hconf Hen Hssr.
  destruct (configResolved_enabled platform config st Hconf Hen) as [so Hopts].
  set (merged := with_kit_appendTo so _) in Hopts.
  assert (Hmerged : well_formed (VObject merged) = true).
  { apply well_formed_with_kit_appendTo.
    now apply well_formed_merge_options. }
  destruct (Json.stringify (VObject merged)) as [json|] eqn:Hjson;
    [|discriminate Hjson].
  exists merged, json, (prune (VObject merged)).
  split; [exact Hopts|]. split.
  - unfold load. rewrite Hssr, Hen, String.eqb_refl, Hopts.
    cbn [orb]. now rewrite Hjson.
  - split; [now apply parse_stringify|]. split; [reflexivity|].
    intros path. now apply observe_pruned.
Qed.

Lemma load_options_round_trip_witness :
  exists merged json parsed,
    inspectorOptions
      {| inspectorOptions :=
           Some (JsObject.assign (defaultInspectorOptions "linux")
                   Sample.nav_user_options);
         appendTo := VUndefined;
         disabled := false |}
    = Some merged
    /\ load (fun id => id) (fun _ => None) "/srv/app/custom-plugins/inspector"
         {| inspectorOptions :=
              Some (JsObject.assign (defaultInspectorOptions "linux")
                      Sample.nav_user_options);
            appendTo := VUndefined;
            disabled := false |}
         options_id None
       = Normal (Some ("export default " ++ json))
    /\ Json.parse json = Some parsed
    /\ parsed = prune (VObject merged)
    /\ forall path,
         observe (get_path path parsed)
         = observe (get_path path (VObject merged)).
Proof.
  apply (load_options_round_trip (fun id => id) (fun _ => None)
           "linux" "/srv/app/custom-plugins/inspector" Sample.nav_config);
    reflexivity.
Defined.

(** The text [load] returns for the options of the repository. *)
Example load_repository_options :
  exists st,
    configResolved "linux" initial_session Sample.repository_config = Normal st
    /\ load (fun id => id) (fun _ => None) "/srv/app/custom-plugins/inspector"
         st options_id None
       = Normal
           (Some
              ("export default {"
                 ++ Json.quoteJSONString "toggleKeyCombo" ++ ":"
                 ++ Json.quoteJSONString "meta-shift" ++ ","
                 ++ Json.quoteJSONString "navKeys" ++ ":{"
                 ++ Json.quoteJSONString "parent" ++ ":"
                 ++ Json.quoteJSONString "ArrowUp" ++ ","
                 ++ Json.quoteJSONString "child" ++ ":"
                 ++ Json.quoteJSONString "ArrowDown" ++ ","
                 ++ Json.quoteJSONString "next" ++ ":"
                 ++ Json.quoteJSONString "ArrowRight" ++ ","
                 ++ Json.quoteJSONString "prev" ++ ":"
                 ++ Json.quoteJSONString "ArrowLeft" ++ "},"
                 ++ Json.quoteJSONString "openKey" ++ ":"
                 ++ Json.quoteJSONString "Enter" ++ ","
                 ++ Json.quoteJSONString "holdMode" ++ ":false,"
                 ++ Json.quoteJSONString "showToggleButton" ++ ":"
                 ++ Json.quoteJSONString "active" ++ ","
                 ++ Json.quoteJSONString "toggleButtonPos" ++ ":"
                 ++ Json.quoteJSONString "top-right" ++ ","
                 ++ Json.quoteJSONString "customStyles" ++ ":true,"
                 ++ Json.quoteJSONString "appendTo" ++ ":"
                 ++ Json.quoteJSONString ".svelte-kit/generated/root.svelte"
                 ++ "}")).
Proof. eexists. split; reflexivity. Qed.

(* ================================================================= *)
(** * Further properties of the hooks *)

(** ** Sessions that do nothing *)

Lemma disabled_hooks_return_nothing_witness :
  resolveId "/srv/app/custom-plugins/inspector"
    {| inspectorOptions := None; appendTo := VUndefined; disabled := true |}
    "virtual:svelte-inspector-path:load-inspector.js" None = None
  /\ transformIndexHtml
       {| inspectorOptions := None; appendTo := VUndefined; disabled := true |}
       "<html></html>" = None.
Proof.
  destruct (disabled_hooks_return_nothing (fun id => id) (fun _ => None)
              "/srv/app/custom-plugins/inspector"
              {| inspectorOptions := None;
                 appendTo := VUndefined;
                 disabled := true |} eq_refl)
    as (Hresolve & _ & _ & Hhtml).
  split; [apply Hresolve | apply Hhtml].
Defined.

Lemma disabled_is_terminal_witness :
  disabled
    {| inspectorOptions :=
         Some (with_kit_appendTo Sample.repository_options
                 (merge_options "linux" (Some (SettingBool true))));
       appendTo := VString ".svelte-kit/generated/root.svelte";
       disabled := true |} = true.
Proof.
  apply (disabled_is_terminal "linux"
           {| inspectorOptions := None;
              appendTo := VUndefined;
              disabled := true |}
           _ Sample.repository_config);
    reflexivity.
Defined.

(** X3.  In a server-rendering call, [resolveId], [load] and [transform]
    return nothing, whatever the session and the id. *)
Theorem server_rendering_hooks_return_nothing
  (idToFile : string -> string) (fs : NodeFs.file_system)
  (pluginPath : string) (st : session) (o : option hook_options) :
  is_ssr o = true ->
  (forall id, resolveId pluginPath st id o = None)
  /\ (forall id, load idToFile fs pluginPath st id o = Normal None)
  /\ (forall source id, transform st source id o = None).
Proof.
  intros H. repeat split; intros; unfold resolveId, load, transform;
    now rewrite H.
Qed.

Lemma server_rendering_hooks_return_nothing_witness :
  resolveId "/srv/app/custom-plugins/inspector" initial_session
    "virtual:svelte-inspector-options" (Some {| ssr := Some true |}) = None
  /\ transform
       {| inspectorOptions := None;
          appendTo := VString "root.svelte";
          disabled := false |}
       "<slot />" "/srv/app/root.svelte" (Some {| ssr := Some true |}) = None.
Proof.
  split.
  - apply (server_rendering_hooks_return_nothing (fun id => id) (fun _ => None)
             "/srv/app/custom-plugins/inspector" initial_session
             (Some {| ssr := Some true |}) eq_refl).
  - apply (server_rendering_hooks_return_nothing (fun id => id) (fun _ => None)
             "/srv/app/custom-plugins/inspector"
             {| inspectorOptions := None;
                appendTo := VString "root.svelte";
                disabled := false |}
             (Some {| ssr := Some true |}) eq_refl).
Defined.

(** ** From a virtual id to a file of the inspector *)

(** X4.  In an enabled session and outside server rendering, when the
    directory of the inspector has no dollar sign, [resolveId] rewrites an id
    under the path prefix to that directory followed by the rest of the
    id. *)
Theorem resolveId_rewrites_path_prefix
  (pluginPath : string) (st : session) (o : option hook_options)
  (rest : string) :
  is_ssr o = false ->
  disabled st = false ->
  JsString.has_char "$" (inspectorPath pluginPath) = false ->
  resolveId pluginPath st (path_prefix ++ rest) o
  = Some (inspectorPath pluginPath ++ rest).
Proof. intros Hssr Hen Hplain. now apply resolveId_path_plain. Qed.

Lemma resolveId_rewrites_path_prefix_witness :
  resolveId "/srv/app/custom-plugins/inspector" initial_session
    (path_prefix ++ "Inspector.svelte") None
  = Some (inspectorPath "/srv/app/custom-plugins/inspector"
            ++ "Inspector.svelte").
Proof.
  apply (resolveId_rewrites_path_prefix "/srv/app/custom-plugins/inspector"
           initial_session None "Inspector.svelte");
    reflexivity.
Defined.

(** X5.  When the directory of the inspector has no dollar sign, an id under
    the path prefix is resolved to an id that [load] answers with the text of
    the file [idToFile] names for it. *)
Theorem load_resolved_inspector_file
  (idToFile : string -> string) (fs : NodeFs.file_system)
  (pluginPath : string) (st : session) (o : option hook_options)
  (rest text : string) :
  is_ssr o = false ->
  disabled st = false ->
  JsString.has_char "$" (inspectorPath pluginPath) = false ->
  fs (idToFile (inspectorPath pluginPath ++ rest)) = Some (NodeFs.File text) ->
  exists id,
    resolveId pluginPath st (path_prefix ++ rest) o = Some id
    /\ id = inspectorPath pluginPath ++ rest
    /\ load idToFile fs pluginPath st id o = Normal (Some text).
Proof.
  intros Hssr Hen Hplain Hfile.
  exists (inspectorPath pluginPath ++ rest).
  split; [now apply resolveId_path_plain|]. split; [reflexivity|].
  assert (Hid : JsString.startsWith (inspectorPath pluginPath)
                  (inspectorPath pluginPath ++ rest) = true)
    by apply prefix_append.
  unfold load, NodeFs.existsSync, NodeFs.readFile.
  rewrite Hssr, Hen, (inspectorPath_id_is_not_options_id _ _ Hid), Hid.
  now rewrite Hfile.
Qed.

Lemma load_resolved_inspector_file_witness :
  exists id,
    resolveId "/srv/app/custom-plugins/inspector" initial_session
      (path_prefix ++ "load-inspector.js") None = Some id
    /\ id = inspectorPath "/srv/app/custom-plugins/inspector"
              ++ "load-inspector.js"
    /\ load (fun id => id)
         (fun p =>
            if String.eqb p "/srv/app/custom-plugins/inspector/load-inspector.js"
            then Some (NodeFs.File "import './Inspector.svelte'") else None)
         "/srv/app/custom-plugins/inspector" initial_session id None
       = Normal (Some "import './Inspector.svelte'").
Proof.
  apply (load_resolved_inspector_file (fun id => id)
           (fun p =>
              if String.eqb p "/srv/app/custom-plugins/inspector/load-inspector.js"
              then Some (NodeFs.File "import './Inspector.svelte'") else None)
           "/srv/app/custom-plugins/inspector" initial_session None
           "load-inspector.js" "import './Inspector.svelte'");
    reflexivity.
Defined.

(** The directory of the inspector is an absolute path when the directory of
    the plugin is one. *)
Lemma inspectorPath_absolute (pluginPath : string) :
  JsString.startsWith "/" pluginPath = true ->
  exists r, inspectorPath pluginPath = String "/" r.
Proof.
  intros H. apply prefix_split in H as [r ->].
  unfold inspectorPath, getInspectorPath.
  destruct (JsString.endsWith _ _).
  - unfold JsString.drop_last.
    destruct (String.length ("/" ++ r) - _)%nat; cbn; eexists; reflexivity.
  - cbn. eexists; reflexivity.
Qed.

Lemma append_not_shorter (a ext : string) : ext <> "" -> a ++ ext <> a.
Proof.
  intros Hne E. apply (f_equal String.length) in E.
  rewrite length_append in E. destruct ext; [now elim Hne | simpl in E; lia].
Qed.

(** X6.  [resolveId] hands back an id that extends the options id, but
    [load] serves the options for the options id alone: with the plugin in
    an absolute directory, [load] of the extended id returns nothing. *)
Theorem load_ignores_extended_options_id
  (idToFile : string -> string) (fs : NodeFs.file_system)
  (pluginPath : string) (st : session) (o : option hook_options)
  (ext : string) :
  is_ssr o = false ->
  disabled st = false ->
  JsString.startsWith "/" pluginPath = true ->
  ext <> "" ->
  resolveId pluginPath st (options_id ++ ext) o = Some (options_id ++ ext)
  /\ load idToFile fs pluginPath st (options_id ++ ext) o = Normal None.
Proof.
  intros Hssr Hen Habs Hext. split.
  - now apply resolveId_options_extended.
  - unfold load. rewrite Hssr, Hen. cbn [orb].
    replace (String.eqb (options_id ++ ext) options_id) with false
      by (symmetry; apply String.eqb_neq; now apply append_not_shorter).
    destruct (inspectorPath_absolute pluginPath Habs) as [r ->].
    reflexivity.
Qed.

Lemma load_ignores_extended_options_id_witness :
  resolveId "/srv/app/custom-plugins/inspector" initial_session
    (options_id ++ "?v=1") None = Some (options_id ++ "?v=1")
  /\ load (fun id => id) (fun _ => Some (NodeFs.File "x"))
       "/srv/app/custom-plugins/inspector" initial_session
       (options_id ++ "?v=1") None = Normal None.
Proof.
  apply (load_ignores_extended_options_id (fun id => id)
           (fun _ => Some (NodeFs.File "x"))
           "/srv/app/custom-plugins/inspector" initial_session None "?v=1");
    (reflexivity || discriminate).
Defined.

(** X7.  An id that [resolveId] has rewritten is not rewritten again: with
    the plugin in an absolute directory, every id under the directory of the
    inspector is left to the other plugins. *)
Theorem resolveId_leaves_resolved_ids
  (pluginPath : string) (st : session) (o : option hook_options)
  (rest : string) :
  JsString.startsWith "/" pluginPath = true ->
  resolveId pluginPath st (inspectorPath pluginPath ++ rest) o = None.
Proof.
  intros Habs. destruct (inspectorPath_absolute pluginPath Habs) as [r ->].
  unfold resolveId. now destruct (is_ssr o || disabled st).
Qed.

Lemma resolveId_leaves_resolved_ids_witness :
  resolveId "/srv/app/custom-plugins/inspector" initial_session
    (inspectorPath "/srv/app/custom-plugins/inspector" ++ "load-inspector.js")
    None = None.
Proof.
  apply (resolveId_leaves_resolved_ids "/srv/app/custom-plugins/inspector"
           initial_session None "load-inspector.js" eq_refl).
Defined.

(** X8.  [load] looks at one path of the file system, the one [idToFile]
    names for the id, and at none when the id is not under the directory of
    the inspector: two file systems that agree there give the same result. *)
Theorem load_reads_one_path
  (idToFile : string -> string) (fs fs' : NodeFs.file_system)
  (pluginPath : string) (st : session) (id : string)
  (o : option hook_options) :
  (JsString.startsWith (inspectorPath pluginPath) id = true ->
   fs (idToFile id) = fs' (idToFile id)) ->
  load idToFile fs pluginPath st id o = load idToFile fs' pluginPath st id o.
Proof.
  intros H. unfold load, NodeFs.existsSync, NodeFs.readFile.
  destruct (is_ssr o || disabled st); [reflexivity|].
  destruct (String.eqb id options_id); [reflexivity|].
  destruct (JsString.startsWith _ id); [|reflexivity].
  now rewrite (H eq_refl).
Qed.

Lemma load_reads_one_path_witness :
  load (fun id => id)
    (fun p =>
       if String.eqb p "/srv/app/custom-plugins/inspector/load-inspector.js"
       then Some (NodeFs.File "import './Inspector.svelte'") else None)
    "/srv/app/custom-plugins/inspector" initial_session
    "/srv/app/custom-plugins/inspector/load-inspector.js" None
  = load (fun id => id)
      (fun p =>
         if String.eqb p "/srv/app/custom-plugins/inspector/load-inspector.js"
         then Some (NodeFs.File "import './Inspector.svelte'")
         else Some NodeFs.Directory)
      "/srv/app/custom-plugins/inspector" initial_session
      "/srv/app/custom-plugins/inspector/load-inspector.js" None.
Proof.
  apply (load_reads_one_path (fun id => id)
           (fun p =>
              if String.eqb p "/srv/app/custom-plugins/inspector/load-inspector.js"
              then Some (NodeFs.File "import './Inspector.svelte'") else None)
           (fun p =>
              if String.eqb p "/srv/app/custom-plugins/inspector/load-inspector.js"
              then Some (NodeFs.File "import './Inspector.svelte'")
              else Some NodeFs.Directory)
           "/srv/app/custom-plugins/inspector" initial_session
           "/srv/app/custom-plugins/inspector/load-inspector.js" None).
  intros _. reflexivity.
Defined.

(** X9.  Without an append target, an enabled session returns the page as
    it is with one tag: a module script for the body whose [src] is [/@id/]
    followed by the loader id; outside server rendering, and with no dollar
    sign in the directory of the inspector, [resolveId] rewrites that id to
    [load-inspector.js] in that directory. *)
Theorem html_tag_names_the_loader
  (pluginPath : string) (st : session) (o : option hook_options)
  (page : string) :
  disabled st = false ->
  truthy (appendTo st) = false ->
  is_ssr o = false ->
  JsString.has_char "$" (inspectorPath pluginPath) = false ->
  transformIndexHtml st page
  = Some {| html := page;
            tags := [ {| tag := "script";
                         injectTo := "body";
                         attrs := [ ("type", "module");
                                    ("src", "/@id/" ++ path_prefix
                                              ++ "load-inspector.js") ] |} ] |}
  /\ resolveId pluginPath st (path_prefix ++ "load-inspector.js") o
     = Some (inspectorPath pluginPath ++ "load-inspector.js").
Proof.
  intros Hen Hto Hssr Hplain. split.
  - unfold transformIndexHtml. now rewrite Hen, Hto.
  - now apply resolveId_path_plain.
Qed.

Lemma html_tag_names_the_loader_witness :
  transformIndexHtml initial_session "<html></html>"
  = Some {| html := "<html></html>";
            tags := [ {| tag := "script";
                         injectTo := "body";
                         attrs := [ ("type", "module");
                                    ("src", "/@id/" ++ path_prefix
                                              ++ "load-inspector.js") ] |} ] |}
  /\ resolveId "/srv/app/custom-plugins/inspector" initial_session
       (path_prefix ++ "load-inspector.js") None
     = Some (inspectorPath "/srv/app/custom-plugins/inspector"
               ++ "load-inspector.js").
Proof.
  apply (html_tag_names_the_loader "/srv/app/custom-plugins/inspector"
           initial_session None "<html></html>");
    reflexivity.
Defined.

(** ** The directory of the inspector *)

Lemma drop_last_append (a b : string) :
  JsString.drop_last (String.length b) (a ++ b) = a.
Proof.
  unfold JsString.drop_last. rewrite length_append.
  replace (String.length a + String.length b - String.length b)%nat
    with (String.length a) by lia.
  apply substring_head.
Qed.

(** X10.  For a plugin that runs from the [dist] directory of
    vite-plugin-svelte, [getInspectorPath] is the directory of the inspector
    among the sources, with its slash; the directory the hooks use has one
    slash more. *)
Theorem getInspectorPath_of_dist (root : string) :
  getInspectorPath (root ++ "/vite-plugin-svelte/dist")
  = root ++ "/vite-plugin-svelte/src/ui/inspector/"
  /\ inspectorPath (root ++ "/vite-plugin-svelte/dist")
     = root ++ "/vite-plugin-svelte/src/ui/inspector//".
Proof.
  assert (H : getInspectorPath (root ++ "/vite-plugin-svelte/dist")
              = root ++ "/vite-plugin-svelte/src/ui/inspector/").
  { unfold getInspectorPath. rewrite endsWith_append.
    now rewrite (drop_last_append root "/vite-plugin-svelte/dist"). }
  split; [exact H|].
  unfold inspectorPath. rewrite H. now rewrite append_assoc.
Qed.

(** ** Configuration *)

(** X11.  The first call of [configResolved] does not throw.  It leaves the
    session enabled exactly when the first plugin named vite-plugin-svelte
    shows a truthy [nvim_inspector]; a session it disables has no options and
    no append target. *)
Theorem configResolved_first_call
  (platform : string) (config : resolved_config) :
  exists st,
    configResolved platform initial_session config = Normal st
    /\ disabled st
       = negb (setting_truthy
                 (inspector_setting_of
                    (find (fun q => String.eqb (name q) "vite-plugin-svelte")
                          (plugins config))))
    /\ (disabled st = true ->
        inspectorOptions st = None /\ appendTo st = VUndefined).
Proof.
  unfold configResolved.
  destruct (find _ _) as [p|].
  - destruct (setting_truthy (inspector_setting_of (Some p))) eqn:Htruthy.
    + unfold inspector_setting_of, svelte_options_of in Htruthy.
      destruct (api p) as [a|]; [|discriminate Htruthy].
      destruct (options a) as [so|]; [|discriminate Htruthy].
      eexists. split; [reflexivity|]. split; [reflexivity|].
      cbn. discriminate.
    + eexists. split; [reflexivity|]. now split.
  - eexists. split; [reflexivity|]. now split.
Qed.

Lemma NoDup_default_keys (platform : string) :
  NoDup (JsObject.keys (defaultInspectorOptions platform)).
Proof. apply nodup_keys_NoDup. reflexivity. Qed.

Lemma configResolved_first_call_witness :
  exists st,
    configResolved "linux" initial_session {| plugins := [] |} = Normal st
    /\ disabled st
       = negb (setting_truthy
                 (inspector_setting_of
                    (find (fun q => String.eqb (name q) "vite-plugin-svelte")
                          (plugins {| plugins := [] |}))))
    /\ (disabled st = true ->
        inspectorOptions st = None /\ appendTo st = VUndefined).
Proof. exact (configResolved_first_call "linux" {| plugins := [] |}). Defined.

(** Reading the merged options. *)
Lemma get_merge_options (platform k : string) (user : object) :
  NoDup (JsObject.keys user) ->
  JsObject.get k (merge_options platform (Some (SettingOptions user)))
  = if JsObject.has k user then JsObject.get k user
    else JsObject.get k (defaultInspectorOptions platform).
Proof.
  intros Hnd. unfold merge_options. cbn [spread_source].
  rewrite get_assign by assumption.
  destruct (JsObject.has k user); [reflexivity|].
  rewrite get_assign by apply NoDup_default_keys.
  destruct (JsObject.has k (defaultInspectorOptions platform)) eqn:H;
    [reflexivity|].
  symmetry. now apply get_absent.
Qed.

Lemma well_formed_NoDup (o : object) :
  well_formed (VObject o) = true -> NoDup (JsObject.keys o).
Proof.
  intros H. destruct (well_formed_object o H) as [Hk _].
  apply andb_true_iff in Hk as [Hnd _]. now apply nodup_keys_NoDup.
Qed.

(** X12.  In the merged options every property the user's record has, one
    set to [undefined] included, has the user's value, and every other
    property has its default. *)
Theorem merged_options_user_wins (platform k : string) (user : object) :
  well_formed (VObject user) = true ->
  (JsObject.has k user = true ->
   JsObject.get k (merge_options platform (Some (SettingOptions user)))
   = JsObject.get k user)
  /\ (JsObject.has k user = false ->
      JsObject.get k (merge_options platform (Some (SettingOptions user)))
      = JsObject.get k (defaultInspectorOptions platform)).
Proof.
  intros Hwf. apply well_formed_NoDup in Hwf.
  split; intros H; now rewrite get_merge_options, H.
Qed.

Lemma merged_options_user_wins_witness :
  JsObject.get "openKey"
    (merge_options "linux" (Some (SettingOptions Sample.nav_user_options)))
  = JsObject.get "openKey" Sample.nav_user_options
  /\ JsObject.get "holdMode"
       (merge_options "linux" (Some (SettingOptions Sample.nav_user_options)))
     = JsObject.get "holdMode" (defaultInspectorOptions "linux").
Proof.
  split.
  - apply (merged_options_user_wins "linux" "openKey" Sample.nav_user_options);
      reflexivity.
  - apply (merged_options_user_wins "linux" "holdMode" Sample.nav_user_options);
      reflexivity.
Defined.

(** X13.  An append target the user's record names is kept, in a kit project
    too: the session's append target is the user's string. *)
Theorem configResolved_keeps_user_appendTo
  (platform : string) (st : session) (config : resolved_config)
  (p : plugin) (a : plugin_api) (so : svelte_options)
  (e : experimental_options) (user : object) (target : string) :
  find (fun q => String.eqb (name q) "vite-plugin-svelte") (plugins config)
  = Some p ->
  api p = Some a ->
  options a = Some so ->
  experimental so = Some e ->
  nvim_inspector e = Some (SettingOptions user) ->
  well_formed (VObject user) = true ->
  JsObject.get "appendTo" user = VString target ->
  target <> "" ->
  exists st',
    configResolved platform st config = Normal st'
    /\ appendTo st' = VString target
    /\ inspectorOptions st'
       = Some (merge_options platform (Some (SettingOptions user))).
Proof.
  intros Hfind Hapi Hopt Hexp Hset Hwf Hto Hne.
  pose proof (setting_of_found p a so Hapi Hopt) as Hsetting.
  cbv zeta in Hsetting. rewrite Hexp, Hset in Hsetting.
  assert (Htruthy : setting_truthy (inspector_setting_of (Some p)) = true)
    by now rewrite Hsetting.
  rewrite (configResolved_configured platform st config p a so Hfind Hapi Hopt
             Htruthy).
  rewrite Hsetting.
  assert (Hmerged :
            JsObject.get "appendTo"
              (merge_options platform (Some (SettingOptions user)))
            = VString target).
  { rewrite get_merge_options by now apply well_formed_NoDup.
    destruct (JsObject.has "appendTo" user) eqn:Hhas; [exact Hto|].
    rewrite (get_absent _ _ Hhas) in Hto. discriminate Hto. }
  assert (Hkept :
            with_kit_appendTo so
              (merge_options platform (Some (SettingOptions user)))
            = merge_options platform (Some (SettingOptions user))).
  { unfold with_kit_appendTo. destruct (kit so); [|reflexivity].
    rewrite Hmerged. cbn [truthy].
    now replace (String.eqb target "") with false
      by (symmetry; now apply String.eqb_neq). }
  rewrite Hkept, Hmerged. eexists. repeat split.
Qed.

Lemma configResolved_keeps_user_appendTo_witness :
  exists st',
    configResolved "linux" initial_session
      {| plugins :=
           [ Sample.companion
               {| experimental :=
                    Some {| nvim_inspector :=
                              Some (SettingOptions
                                      [("appendTo", VString "src/main.ts")]) |};
                  kit := Some {| outDir := None |} |} ] |}
    = Normal st'
    /\ appendTo st' = VString "src/main.ts"
    /\ inspectorOptions st'
       = Some (merge_options "linux"
                 (Some (SettingOptions [("appendTo", VString "src/main.ts")]))).
Proof.
  apply (configResolved_keeps_user_appendTo "linux" initial_session
           {| plugins :=
                [ Sample.companion
                    {| experimental :=
                         Some {| nvim_inspector :=
                                   Some (SettingOptions
                                           [("appendTo", VString "src/main.ts")])
                              |};
                       kit := Some {| outDir := None |} |} ] |}
           (Sample.companion
              {| experimental :=
                   Some {| nvim_inspector :=
                             Some (SettingOptions
                                     [("appendTo", VString "src/main.ts")]) |};
                 kit := Some {| outDir := None |} |})
           {| options :=
                Some {| experimental :=
                          Some {| nvim_inspector :=
                                    Some (SettingOptions
                                            [("appendTo", VString "src/main.ts")])
                               |};
                        kit := Some {| outDir := None |} |} |}
           {| experimental :=
                Some {| nvim_inspector :=
                          Some (SettingOptions
                                  [("appendTo", VString "src/main.ts")]) |};
              kit := Some {| outDir := None |} |}
           {| nvim_inspector :=
                Some (SettingOptions [("appendTo", VString "src/main.ts")]) |}
           [("appendTo", VString "src/main.ts")] "src/main.ts");
    (reflexivity || discriminate).
Defined.

Lemma append_nonempty (a b : string) : b <> "" -> String.eqb (a ++ b) "" = false.
Proof.
  intros Hb. apply String.eqb_neq. intros E.
  apply (f_equal String.length) in E. rewrite length_append in E.
  destruct b; [now elim Hb | simpl in E; lia].
Qed.

(** X14.  The way of delivery follows from the configuration.  After the
    first call of [configResolved] with a truthy setting, the session has an
    append target exactly when the project is a kit project or the merged
    options name a target; so a kit project never gets the tag, and its
    pages are returned untouched. *)
Theorem configured_delivery_mode
  (platform : string) (config : resolved_config)
  (p : plugin) (a : plugin_api) (so : svelte_options) :
  find (fun q => String.eqb (name q) "vite-plugin-svelte") (plugins config)
  = Some p ->
  api p = Some a ->
  options a = Some so ->
  setting_truthy (inspector_setting_of (Some p)) = true ->
  exists st,
    configResolved platform initial_session config = Normal st
    /\ disabled st = false
    /\ truthy (appendTo st)
       = match kit so with
         | Some _ => true
         | None =>
             truthy (JsObject.get "appendTo"
                       (merge_options platform (inspector_setting_of (Some p))))
         end
    /\ (kit so <> None -> forall page, transformIndexHtml st page = None).
Proof.
  intros Hfind Hapi Hopt Htruthy.
  rewrite (configResolved_configured platform initial_session config p a so
             Hfind Hapi Hopt Htruthy).
  eexists. split; [reflexivity|]. split; [reflexivity|].
  cbn [appendTo].
  assert (Hmode :
            truthy (JsObject.get "appendTo"
                      (with_kit_appendTo so
                         (merge_options platform
                            (inspector_setting_of (Some p)))))
            = match kit so with
              | Some _ => true
              | None =>
                  truthy (JsObject.get "appendTo"
                            (merge_options platform
                               (inspector_setting_of (Some p))))
              end).
  { unfold with_kit_appendTo. destruct (kit so) as [k|]; [|reflexivity].
    destruct (truthy (JsObject.get "appendTo"
                        (merge_options platform
                           (inspector_setting_of (Some p))))) eqn:Hold;
      cbn [negb].
    - exact Hold.
    - rewrite get_set_same. cbn [truthy].
      now rewrite append_nonempty by discriminate. }
  split; [exact Hmode|].
  intros Hkit page. unfold transformIndexHtml. cbn [appendTo disabled].
  rewrite Hmode. destruct (kit so); [reflexivity | now elim Hkit].
Qed.

Lemma configured_delivery_mode_witness :
  exists st,
    configResolved "linux" initial_session Sample.repository_config = Normal st
    /\ disabled st = false
    /\ truthy (appendTo st)
       = match kit Sample.repository_options with
         | Some _ => true
         | None =>
             truthy (JsObject.get "appendTo"
                       (merge_options "linux"
                          (inspector_setting_of
                             (Some (Sample.companion
                                      Sample.repository_options)))))
         end
    /\ (kit Sample.repository_options <> None ->
        forall page, transformIndexHtml st page = None).
Proof.
  apply (configured_delivery_mode "linux" Sample.repository_config
           (Sample.companion Sample.repository_options)
           {| options := Some Sample.repository_options |}
           Sample.repository_options);
    reflexivity.
Defined.

(** ** The output directory of the kit *)

Lemma list_ascii_of_string_append (a b : string) :
  list_ascii_of_string (a ++ b)
  = (list_ascii_of_string a ++ list_ascii_of_string b)%list.
Proof. induction a as [|c a IH]; simpl; [reflexivity | now rewrite IH]. Qed.



Lemma drop_slashes_segment (l : list ascii) :
  ~ In "/"%char l -> NodePath.drop_slashes l = l.
Proof.
  destruct l as [|c l]; intros H; simpl; [reflexivity|].
  destruct (Ascii.eqb_spec c "/"); [|reflexivity].
  subst. elim H. now left.
Qed.




(* ================================================================= *)
(** ** The commands of the listener *)

Lemma js_substring_swapped (s : string) (a b : Z) :
  0 <= b <= a -> a <= Z.of_nat (String.length s) ->
  JsString.substring s a b
  = String.substring (Z.to_nat b) (Z.to_nat (a - b)) s.
Proof.
  intros Hab Ha. unfold JsString.substring, JsString.clamp.
  rewrite (Z.max_l a 0), (Z.max_l b 0) by lia.
  rewrite (Z.min_l a), (Z.min_l b) by lia.
  rewrite Z.min_r, Z.max_l by lia. reflexivity.
Qed.

(** X16.  A message with one colon only gives the colon itself as the row,
    not 0 and not the text after the colon: the two bounds of [substring]
    are the colon's position plus one and that position, and [substring]
    swaps them. *)
Theorem location_row_one_colon (pre post : string) :
  JsString.has_char ":" pre = false ->
  JsString.has_char ":" post = false ->
  location_row (pre ++ ":" ++ post) = ":"
  /\ location_file (pre ++ ":" ++ post) = pre.
Proof.
  intros Hpre Hpost. split; [|now apply location_file_before_first_colon].
  unfold location_row, JsString.indexOf, JsString.lastIndexOf.
  change (":" ++ post) with (String ":" post).
  change ":" with (String ":" "") at 1 2.
  rewrite indexOf_from_first by assumption.
  rewrite lastIndexOf_from_last by (assumption || lia).
  rewrite js_substring_swapped
    by (rewrite ?length_append; simpl String.length; lia).
  replace (Z.to_nat (0 + Z.of_nat (String.length pre)))
    with (String.length pre) by lia.
  replace (Z.to_nat _) with 1%nat by lia.
  rewrite substring_skip. cbn. now destruct post.
Qed.

Lemma location_row_one_colon_witness :
  location_row ("src/App.svelte" ++ ":" ++ "42") = ":"
  /\ location_file ("src/App.svelte" ++ ":" ++ "42") = "src/App.svelte".
Proof.
  apply (location_row_one_colon "src/App.svelte" "42"); reflexivity.
Defined.

(** X17.  For a message [file:row:column] the listener starts two commands,
    in this order: one that opens [file], one that sends the keys of [row]
    (of 0 when [row] is empty) followed by a shifted g.  Both texts are put
    into the command lines as they are. *)
Theorem from_client_commands (file row column : string) :
  JsString.has_char ":" file = false ->
  JsString.has_char ":" column = false ->
  from_client {| msg := Some (file ++ ":" ++ row ++ ":" ++ column) |}
  = [ "nvim --server ~/.cache/nvim/server.pipe --remote " ++ file;
      "nvim --server ~/.cache/nvim/server.pipe --remote-send '"
        ++ (if String.eqb row "" then "0" else row) ++ "<s-g>'" ].
Proof.
  intros Hfile Hcolumn. unfold from_client. cbn [msg].
  rewrite (location_row_between_colons file row column Hfile Hcolumn).
  replace (file ++ ":" ++ row ++ ":" ++ column)
    with (file ++ ":" ++ (row ++ ":" ++ column)) by reflexivity.
  now rewrite (location_file_before_first_colon file _ Hfile).
Qed.

Lemma from_client_commands_witness :
  from_client
    {| msg := Some ("src/My App.svelte" ++ ":" ++ "42" ++ ":" ++ "7") |}
  = [ "nvim --server ~/.cache/nvim/server.pipe --remote "
        ++ "src/My App.svelte";
      "nvim --server ~/.cache/nvim/server.pipe --remote-send '"
        ++ (if String.eqb "42" "" then "0" else "42") ++ "<s-g>'" ].
Proof.
  apply (from_client_commands "src/My App.svelte" "42" "7");
    reflexivity.
Defined.

(** X18.  A payload without [msg], or with a message that has no colon,
    still starts both commands: the first with no file, the second with the
    row 0. *)
Theorem from_client_without_colon (data : client_data) :
  JsString.has_char ":" (match msg data with Some m => m | None => "" end)
  = false ->
  from_client data
  = [ "nvim --server ~/.cache/nvim/server.pipe --remote ";
      "nvim --server ~/.cache/nvim/server.pipe --remote-send '0<s-g>'" ].
Proof.
  intros H. unfold from_client.
  destruct (location_without_colon _ H) as [-> ->]. reflexivity.
Qed.

Lemma from_client_without_colon_witness :
  from_client {| msg := None |}
  = [ "nvim --server ~/.cache/nvim/server.pipe --remote ";
      "nvim --server ~/.cache/nvim/server.pipe --remote-send '0<s-g>'" ]
  /\ from_client {| msg := Some "onlyfile" |}
     = [ "nvim --server ~/.cache/nvim/server.pipe --remote ";
         "nvim --server ~/.cache/nvim/server.pipe --remote-send '0<s-g>'" ].
Proof.
  split.
  - apply (from_client_without_colon {| msg := None |}). reflexivity.
  - apply (from_client_without_colon {| msg := Some "onlyfile" |}).
    reflexivity.
Defined.

(** X19.  [configureServer] adds one listener, for [my:from-client]: the
    listeners the socket had run as before, the new one runs after them on
    that event, and nothing is added for any other event. *)
Theorem configureServer_adds_one_listener
  (ws : ws_server) (event : string) (data : client_data) :
  emit (configureServer ws) event data
  = (emit ws event data
       ++ (if String.eqb "my:from-client" event then from_client data else []))
    %list.
Proof.
  unfold emit, configureServer, on. rewrite flat_map_app.
  cbn [flat_map fst snd]. now rewrite app_nil_r.
Qed.

(* ================================================================= *)
(** ** Options without [undefined] *)

Lemma all_defined_is_defined (v : value) :
  all_defined v = true -> is_defined v = true.
Proof. now destruct v. Qed.

Lemma prune_all_defined (v : value) : all_defined v = true -> prune v = v.
Proof.
  induction v as [ | b | s | props IH] using value_nested_ind; intros H;
    try reflexivity.
  cbn [prune all_defined] in *. f_equal.
  induction props as [|[k v] props IHprops]; [reflexivity|].
  apply Forall_cons_iff in IH as [Hv IH].
  cbn [forallb snd] in H. apply andb_true_iff in H as [Hdef Hrest].
  cbn [flat_map fst snd] in *.
  rewrite (all_defined_is_defined v Hdef), (Hv Hdef), (IHprops IH Hrest).
  reflexivity.
Qed.

Lemma all_defined_set (k : string) (v : value) (o : object) :
  all_defined (VObject o) = true ->
  all_defined v = true ->
  all_defined (VObject (JsObject.set k v o)) = true.
Proof.
  cbn [all_defined]. intros Ho Hv. apply forallb_forall. intros kv Hin.
  destruct (in_set k v o kv Hin) as [->|Hin']; [exact Hv|].
  now apply (proj1 (forallb_forall _ _) Ho).
Qed.

Lemma all_defined_assign (target source : object) :
  all_defined (VObject target) = true ->
  all_defined (VObject source) = true ->
  all_defined (VObject (JsObject.assign target source)) = true.
Proof.
  unfold JsObject.assign. revert target.
  induction source as [|kv source IH]; intros target Ht Hs; [exact Ht|].
  cbn [all_defined forallb] in Hs. apply andb_true_iff in Hs as [Hv Hs].
  cbn [fold_left]. apply IH; [|exact Hs]. now apply all_defined_set.
Qed.

Lemma all_defined_merged
  (platform : string) (so : svelte_options) (s : option inspector_setting) :
  all_defined (VObject (spread_source s)) = true ->
  all_defined (VObject (with_kit_appendTo so (merge_options platform s)))
  = true.
Proof.
  intros Hs.
  assert (Hm : all_defined (VObject (merge_options platform s)) = true).
  { unfold merge_options. apply all_defined_assign; [|exact Hs].
    unfold defaultInspectorOptions.
    destruct (String.eqb platform "win32"); reflexivity. }
  unfold with_kit_appendTo. destruct (kit so); [|exact Hm].
  destruct (negb _); [|exact Hm]. now apply all_defined_set.
Qed.

(** X20.  When no property of the user's record is [undefined], at any
    depth, the round trip is exact: [JSON.parse] of the text [load] returns
    for the options id is the merged options, property by property and in
    the same order. *)
Theorem load_options_exact_round_trip
  (idToFile : string -> string) (fs : NodeFs.file_system)
  (platform pluginPath : string) (config : resolved_config)
  (st : session) (o : option hook_options) :
  setting_well_formed
    (inspector_setting_of
       (find (fun q => String.eqb (name q) "vite-plugin-svelte")
             (plugins config))) = true ->
  all_defined
    (VObject
       (spread_source
          (inspector_setting_of
             (find (fun q => String.eqb (name q) "vite-plugin-svelte")
                   (plugins config))))) = true ->
  configResolved platform initial_session config = Normal st ->
  disabled st = false ->
  is_ssr o = false ->
  exists merged json,
    inspectorOptions st = Some merged
    /\ load idToFile fs pluginPath st options_id o
       = Normal (Some ("export default " ++ json))
    /\ Json.parse json = Some (VObject merged).
Proof.
  intros Hwf Hdef Hconf Hen Hssr.
  destruct (configResolved_enabled platform config st Hconf Hen) as [so Hopts].
  set (merged := with_kit_appendTo so _) in Hopts.
  assert (Hmerged : well_formed (VObject merged) = true).
  { apply well_formed_with_kit_appendTo.
    now apply well_formed_merge_options. }
  assert (Hall : all_defined (VObject merged) = true)
    by now apply all_defined_merged.
  destruct (Json.stringify (VObject merged)) as [json|] eqn:Hjson;
    [|discriminate Hjson].
  exists merged, json. split; [exact Hopts|]. split.
  - unfold load. rewrite Hssr, Hen, String.eqb_refl, Hopts.
    cbn [orb]. now rewrite Hjson.
  - rewrite (parse_stringify _ _ Hmerged Hjson).
    now rewrite prune_all_defined.
Qed.

Lemma load_options_exact_round_trip_witness :
  exists merged json,
    inspectorOptions
      {| inspectorOptions :=
           Some (with_kit_appendTo Sample.repository_options
                   (defaultInspectorOptions "linux"));
         appendTo := VString ".svelte-kit/generated/root.svelte";
         disabled := false |}
    = Some merged
    /\ load (fun id => id) (fun _ => None) "/srv/app/custom-plugins/inspector"
         {| inspectorOptions :=
              Some (with_kit_appendTo Sample.repository_options
                      (defaultInspectorOptions "linux"));
            appendTo := VString ".svelte-kit/generated/root.svelte";
            disabled := false |}
         options_id None
       = Normal (Some ("export default " ++ json))
    /\ Json.parse json = Some (VObject merged).
Proof.
  apply (load_options_exact_round_trip (fun id => id) (fun _ => None)
           "linux" "/srv/app/custom-plugins/inspector"
           Sample.repository_config);
    reflexivity.
Defined.

(* ================================================================= *)
(** ** The ids [resolveId] returns unchanged *)

Section Substitution.

Variables matched before after : string.

Lemma getSubstitution_other (c : ascii) (t : string) :
  Ascii.eqb c "$" = false ->
  JsString.getSubstitution matched before after (String c t)
  = String c (JsString.getSubstitution matched before after t).
Proof.
  intros Hc.
  destruct c as [[] [] [] [] [] [] [] []]; try discriminate Hc; reflexivity.
Qed.

Lemma getSubstitution_dollar (d : ascii) (t : string) :
  JsString.getSubstitution matched before after (String "$" (String d t))
  = if Ascii.eqb d "$"
    then String "$" (JsString.getSubstitution matched before after t)
    else if Ascii.eqb d "&"
    then matched ++ JsString.getSubstitution matched before after t
    else if Ascii.eqb d "`"
    then before ++ JsString.getSubstitution matched before after t
    else if Ascii.eqb d "'"
    then after ++ JsString.getSubstitution matched before after t
    else String "$"
           (JsString.getSubstitution matched before after (String d t)).
Proof. destruct d as [[] [] [] [] [] [] [] []]; reflexivity. Qed.

(** The expansion of a template that ends with a slash ends with a slash:
    no pattern takes the slash. *)
Lemma getSubstitution_keeps_last_slash (t : string) :
  exists x,
    JsString.getSubstitution matched before after (t ++ "/") = x ++ "/".
Proof.
  remember (String.length t) as n eqn:Hn.
  assert (Hle : (String.length t <= n)%nat) by lia. clear Hn.
  revert t Hle. induction n as [|n IH]; intros t Hle.
  - destruct t; [|simpl in Hle; lia]. now exists "".
  - destruct t as [|c t]; [now exists ""|].
    simpl in Hle. apply le_S_n in Hle.
    destruct (Ascii.eqb c "$") eqn:Hc.
    + apply Ascii.eqb_eq in Hc. subst c.
      destruct t as [|d t].
      * now exists "$".
      * simpl in Hle.
        destruct (IH t ltac:(lia)) as [x Hx].
        destruct (IH (String d t) ltac:(simpl; lia)) as [y Hy].
        change (String "$" (String d t) ++ "/")
          with (String "$" (String d (t ++ "/"))).
        rewrite getSubstitution_dollar.
        change (String d (t ++ "/")) with (String d t ++ "/").
        rewrite Hx, Hy.
        destruct (Ascii.eqb d "$"); [now exists (String "$" x)|].
        destruct (Ascii.eqb d "&");
          [exists (matched ++ x); now rewrite append_assoc|].
        destruct (Ascii.eqb d "`");
          [exists (before ++ x); now rewrite append_assoc|].
        destruct (Ascii.eqb d "'");
          [exists (after ++ x); now rewrite append_assoc|].
        now exists (String "$" y).
    + destruct (IH t Hle) as [x Hx].
      change (String c t ++ "/") with (String c (t ++ "/")).
      rewrite getSubstitution_other by assumption. rewrite Hx.
      now exists (String c x).
Qed.

End Substitution.

Lemma append_inv_tail (a b r : string) : a ++ r = b ++ r -> a = b.
Proof.
  intros E. apply (f_equal list_ascii_of_string) in E.
  rewrite !list_ascii_of_string_append in E. apply app_inv_tail in E.
  rewrite <- (string_of_list_ascii_of_string a).
  rewrite <- (string_of_list_ascii_of_string b). now rewrite E.
Qed.

(** The path prefix ends with a colon: no text that ends with a slash is the
    path prefix. *)
Lemma slash_end_is_not_path_prefix (x : string) : x ++ "/" <> path_prefix.
Proof.
  intros E. apply (f_equal list_ascii_of_string) in E.
  rewrite list_ascii_of_string_append in E.
  apply (f_equal (@rev ascii)) in E. rewrite rev_app_distr in E.
  discriminate E.
Qed.

(** An id under the path prefix is never resolved to itself. *)
Lemma resolveId_path_changes_id
  (pluginPath : string) (st : session) (o : option hook_options)
  (rest : string) :
  is_ssr o = false ->
  disabled st = false ->
  resolveId pluginPath st (path_prefix ++ rest) o
  <> Some (path_prefix ++ rest).
Proof.
  intros Hssr Hen. rewrite resolveId_path_rewritten by assumption.
  unfold inspectorPath.
  destruct (getSubstitution_keeps_last_slash path_prefix "" rest
              (getInspectorPath pluginPath)) as [x ->].
  intros E.
  assert (E' : (x ++ "/") ++ rest = path_prefix ++ rest) by congruence.
  apply append_inv_tail in E'.
  now apply slash_end_is_not_path_prefix in E'.
Qed.

(** C3, as the code has it.  In a session that is not disabled and outside
    server rendering, [resolveId] returns the requested id itself exactly
    when the id begins with virtual:svelte-inspector-options: it does so for
    that id and for every id that extends it, and for no other id, whatever
    the directory of the plugin. *)
Theorem resolveId_options_by_prefix
  (pluginPath : string) (st : session) (o : option hook_options)
  (importee : string) :
  is_ssr o = false ->
  disabled st = false ->
  (resolveId pluginPath st importee o = Some importee
   <-> exists ext, importee = "virtual:svelte-inspector-options" ++ ext).
Proof.
  intros Hssr Hen. split.
  - intros H.
    destruct (JsString.startsWith options_id importee) eqn:Hopt.
    + now apply prefix_split in Hopt.
    + destruct (JsString.startsWith path_prefix importee) eqn:Hpath.
      * apply prefix_split in Hpath as [rest ->].
        now apply resolveId_path_changes_id in H.
      * rewrite resolveId_other in H by assumption. discriminate H.
  - intros [ext ->]. now apply resolveId_options_extended.
Qed.

Lemma resolveId_options_by_prefix_witness :
  resolveId "/srv/app/custom-plugins/inspector" initial_session
    ("virtual:svelte-inspector-options" ++ "?v=1") None
  = Some ("virtual:svelte-inspector-options" ++ "?v=1").
Proof.
  apply (proj2 (resolveId_options_by_prefix
                  "/srv/app/custom-plugins/inspector" initial_session None
                  ("virtual:svelte-inspector-options" ++ "?v=1")
                  eq_refl eq_refl)).
  now exists "?v=1".
Defined.

(* ================================================================= *)
(** ** The append target of a kit project *)










(** The same on the project of the repository, whose output directory has
    the default name. *)
Example configResolved_repository_appendTo :
  exists st,
    configResolved "linux" initial_session Sample.repository_config = Normal st
    /\ appendTo st = VString ".svelte-kit/generated/root.svelte".
Proof. eexists. split; reflexivity. Qed.

(* ================================================================= *)
(** ** A directory where a file is expected *)

(** C9, where the code departs from it.  The bare path prefix is resolved to
    the directory of the inspector itself.  That path exists, so [load] reads
    it, and since it is a directory the read fails: [load] neither returns
    a text nor returns nothing, it throws. *)
Theorem load_inspector_directory_throws :
  resolveId "/srv/app/custom-plugins/inspector" initial_session
    "virtual:svelte-inspector-path:" None
  = Some "/srv/app/custom-plugins/inspector/"
  /\ JsString.startsWith (inspectorPath "/srv/app/custom-plugins/inspector")
       "/srv/app/custom-plugins/inspector/" = true
  /\ load (fun id => id)
       (fun p => if String.eqb p "/srv/app/custom-plugins/inspector/"
                 then Some NodeFs.Directory else None)
       "/srv/app/custom-plugins/inspector" initial_session
       "/srv/app/custom-plugins/inspector/" None
     = Throw (FsError "EISDIR").
Proof. repeat split. Qed.

(* ================================================================= *)
(** ** A property set to [undefined] *)

(** C4 as the specification words it fails where the user's record sets a
    property to [undefined]: the merged options have the property, the value
    read from the JSON text has not, so the two are not the same object. *)
Lemma load_options_undefined_counterexample :
  exists st merged json parsed,
    configResolved "linux" initial_session Sample.nav_config = Normal st
    /\ disabled st = false
    /\ inspectorOptions st = Some merged
    /\ load (fun id => id) (fun _ => None) "/srv/app/custom-plugins/inspector"
         st options_id None
       = Normal (Some ("export default " ++ json))
    /\ Json.parse json = Some (VObject parsed)
    /\ VObject parsed <> VObject merged
    /\ JsObject.has "openKey" merged = true
    /\ JsObject.has "openKey" parsed = false
    /\ List.length merged = 7%nat
    /\ List.length parsed = 6%nat.
Proof.
  do 4 eexists. split; [reflexivity|]. split; [reflexivity|].
  split; [reflexivity|]. split; [reflexivity|]. split; [reflexivity|].
  split; [discriminate|]. repeat split.
Qed.
